(** * Insurance document question answering: clause segmentation,
      similarity ranking and decision synthesis

    Shallow embedding of [document_processor.py], [semantic_search.py],
    [decision_engine.py] and the question loop of [main.py].

    Conventions.
    - A Python [str] is a list of characters; characters are code points
      below 256 ([ascii]).
    - A Python [int] used as a string index is a [Z]; [find] returns [-1]
      when the pattern is absent and slices clamp their bounds as Python does.
    - Similarity scores and confidences are exact rationals ([Q]); the float32
      rounding of the vector library is not modelled.
    - A Python exception is a value of [exn]; a computation that may raise
      returns [result]. *)

From Stdlib Require Import List Ascii String ZArith QArith Lia Bool Arith.
From Stdlib Require DecimalString DecimalNat.
From Stdlib Require Import Sorting.Sorted Sorting.Permutation.
Import ListNotations.
Close Scope Q_scope.

Set Implicit Arguments.

(* ================================================================== *)
(** * Python strings *)
(* ================================================================== *)

Module PyStr.

Definition str := list ascii.

(** String literals are written [L "..."]. *)
Definition L (s : string) : str := list_ascii_of_string s.

Definition newline : ascii := ascii_of_nat 10.

(** [str.isspace] on one character, which is also the class [\s] of [re] for
    [str] patterns: TAB, LF, VT, FF, CR, the separators 28 to 31, the space,
    NEL (133) and the no-break space (160). *)
Definition is_space (c : ascii) : bool :=
  let n := nat_of_ascii c in
  ((9 <=? n) && (n <=? 13)) || ((28 <=? n) && (n <=? 32))
  || (n =? 133) || (n =? 160).

(** [str.lower] on one character: A-Z, and the Latin-1 capitals 192-222
    except the multiplication sign 215. *)
Definition lower_char (c : ascii) : ascii :=
  let n := nat_of_ascii c in
  if ((65 <=? n) && (n <=? 90))
     || ((192 <=? n) && (n <=? 222) && negb (n =? 215))
  then ascii_of_nat (n + 32) else c.

Definition lower (s : str) : str := map lower_char s.

Fixpoint lstrip (s : str) : str :=
  match s with
  | c :: s' => if is_space c then lstrip s' else s
  | [] => []
  end.

Definition rstrip (s : str) : str := rev (lstrip (rev s)).

(** [s.strip()] *)
Definition strip (s : str) : str := rstrip (lstrip s).

(** [t.startswith(p)] *)
Fixpoint startswith (p t : str) : bool :=
  match p, t with
  | [], _ => true
  | _ :: _, [] => false
  | a :: p', b :: t' => Ascii.eqb a b && startswith p' t'
  end.

(** Lowest index at which [p] occurs in [t]. *)
Fixpoint index_of (p t : str) : option nat :=
  if startswith p t then Some 0
  else match t with
       | [] => None
       | _ :: t' => option_map S (index_of p t')
       end.

(** Highest index at which [p] occurs in [t]. *)
Fixpoint rindex_of (p t : str) : option nat :=
  match t with
  | [] => if startswith p [] then Some 0 else None
  | _ :: t' =>
      match rindex_of p t' with
      | Some i => Some (S i)
      | None => if startswith p t then Some 0 else None
      end
  end.

(** [p in t] *)
Definition contains (p t : str) : bool :=
  match index_of p t with Some _ => true | None => false end.

(** [t.find(p)] *)
Definition find (p t : str) : Z :=
  match index_of p t with Some i => Z.of_nat i | None => (-1)%Z end.

(** [t.find(p, start)] for [0 <= start]: a start beyond the end finds
    nothing (the patterns of this program are never empty). *)
Definition find_from (p t : str) (start : Z) : Z :=
  if (Z.of_nat (List.length t) <? start)%Z then (-1)%Z
  else match index_of p (skipn (Z.to_nat start) t) with
       | Some i => (start + Z.of_nat i)%Z
       | None => (-1)%Z
       end.

(** [t.rfind(p)] *)
Definition rfind (p t : str) : Z :=
  match rindex_of p t with Some i => Z.of_nat i | None => (-1)%Z end.

(** A slice bound as Python normalises it: a negative bound counts from the
    end, and the result is clamped to [0, len]. *)
Definition clamp (len i : Z) : Z :=
  if (i <? 0)%Z then Z.max (i + len) 0 else Z.min i len.

(** [t[a:b]] *)
Definition slice (t : str) (a b : Z) : str :=
  let n := Z.of_nat (List.length t) in
  let a' := clamp n a in
  let b' := clamp n b in
  firstn (Z.to_nat (b' - a')) (skipn (Z.to_nat a') t).

(** [str(i)] for a non-negative integer. *)
Definition str_of_nat (i : nat) : str :=
  L (DecimalString.NilEmpty.string_of_uint (Nat.to_uint i)).

(** ["sep".join(parts)] *)
Fixpoint join (sep : str) (parts : list str) : str :=
  match parts with
  | [] => []
  | [p] => p
  | p :: ps => p ++ sep ++ join sep ps
  end.

End PyStr.
Import PyStr.

(* ================================================================== *)
(** * document_processor.py *)
(* ================================================================== *)

Module DocumentProcessor.

(** A clause as [_extract_clauses] builds it: the dict with the keys
    ["id"], ["content"], ["length"] and ["type"]. *)
Record Clause := mkClause {
  clause_id : str;
  clause_content : str;
  clause_length : nat;
  clause_type : str
}.

(** ** [re.split(r'\n\s*\n', text)]

    After a newline, [\s*] takes the longest run of white space and gives
    characters back until the character that follows is a newline: the match
    ends just after the last newline of that run.  [sep_len rest] is the
    number of characters of [rest] the match takes after its first newline,
    or [None] when the run holds no newline. *)
Fixpoint last_newline_in_run (s : str) (pos : nat) (best : option nat)
  : option nat :=
  match s with
  | c :: s' =>
      if is_space c
      then last_newline_in_run s' (S pos)
             (if Ascii.eqb c newline then Some (S pos) else best)
      else best
  | [] => best
  end.

Definition sep_len (rest : str) : option nat := last_newline_in_run rest 0 None.

(** The scan of [re.split]: [skip] characters of the current match are still
    to be dropped, [cur] is the section read so far, in reverse. *)
Fixpoint split_scan (skip : nat) (cur : str) (text : str) : list str :=
  match text with
  | [] => [rev cur]
  | c :: rest =>
      match skip with
      | S k => split_scan k cur rest
      | O =>
          if Ascii.eqb c newline then
            match sep_len rest with
            | Some m => rev cur :: split_scan m [] rest
            | None => split_scan 0 (c :: cur) rest
            end
          else split_scan 0 (c :: cur) rest
      end
  end.

Definition re_split_blank_lines (text : str) : list str := split_scan 0 [] text.

(** [any(word in text for word in words)] *)
Definition any_in (words : list str) (text : str) : bool :=
  existsb (fun word => contains word text) words.

Definition coverage_words : list str := [L "coverage"; L "cover"; L "policy"].
Definition exclusion_words : list str :=
  [L "exclusion"; L "exclude"; L "not covered"].
Definition condition_words : list str :=
  [L "condition"; L "requirement"; L "must"].
Definition limit_words : list str := [L "limit"; L "maximum"; L "cap"].

Definition _classify_clause_type (text : str) : str :=
  let text_lower := lower text in
  if any_in coverage_words text_lower then L "coverage"
  else if any_in exclusion_words text_lower then L "exclusion"
  else if any_in condition_words text_lower then L "condition"
  else if any_in limit_words text_lower then L "limit"
  else L "general".

(** The loop [for i, section in enumerate(sections)], from index [i] on. *)
Fixpoint extract_from (i : nat) (sections : list str) : list Clause :=
  match sections with
  | [] => []
  | section :: rest =>
      if 50 <? List.length (strip section)
      then {| clause_id := L "clause_" ++ str_of_nat i;
              clause_content := strip section;
              clause_length := List.length (strip section);
              clause_type := _classify_clause_type section |}
           :: extract_from (S i) rest
      else extract_from (S i) rest
  end.

Definition _extract_clauses (text : str) : list Clause :=
  extract_from 0 (re_split_blank_lines text).

End DocumentProcessor.

(* ================================================================== *)
(** * Python values, exceptions and external calls *)
(* ================================================================== *)

Module Py.

Inductive exn_class :=
| JSONDecodeError | AttributeError | NameError | IndexError
| ValueError | AssertionError | HTTPException | Exception.

(** An exception: its class and [str(e)]. *)
Record exn := Raise { exn_cls : exn_class; exn_str : str }.

Inductive result (A : Type) :=
| Ok (a : A)
| Err (e : exn).
Arguments Ok {A} a.
Arguments Err {A} e.

(** A computation that may call the outside world (the embedding and the
    completion endpoints): it reads and updates the state [W] of that world
    and returns a value or raises. *)
Definition M (W A : Type) := W -> result A * W.

Definition ret {W A} (a : A) : M W A := fun w => (Ok a, w).
Definition raise {W A} (e : exn) : M W A := fun w => (Err e, w).
Definition bind {W A B} (m : M W A) (k : A -> M W B) : M W B :=
  fun w => match m w with
           | (Ok a, w') => k a w'
           | (Err e, w') => (Err e, w')
           end.
(** [try: m  except Exception as e: h e] *)
Definition try_except {W A} (m : M W A) (h : exn -> M W A) : M W A :=
  fun w => match m w with
           | (Ok a, w') => (Ok a, w')
           | (Err e, w') => h e w'
           end.
(** A computation that touches nothing outside. *)
Definition lift {W A} (r : result A) : M W A := fun w => (r, w).

Definition rbind {A B} (r : result A) (k : A -> result B) : result B :=
  match r with Ok a => k a | Err e => Err e end.

#[local] Set Warnings "-register-all".
(** The objects [json.loads] builds. *)
Inductive pyval :=
| PNone
| PBool (b : bool)
| PInt (z : Z)
| PFloat (q : Q)
| PStr (s : str)
| PList (l : list pyval)
| PDict (d : list (str * pyval)).

Definition type_name (v : pyval) : str :=
  match v with
  | PNone => L "NoneType" | PBool _ => L "bool" | PInt _ => L "int"
  | PFloat _ => L "float" | PStr _ => L "str" | PList _ => L "list"
  | PDict _ => L "dict"
  end.

Definition str_eqb (a b : str) : bool :=
  if list_eq_dec ascii_dec a b then true else false.

(** Lookup in a dict kept as its list of items. *)
Fixpoint dict_lookup (d : list (str * pyval)) (key : str) : option pyval :=
  match d with
  | [] => None
  | (k, v) :: d' => if str_eqb k key then Some v else dict_lookup d' key
  end.

(** [v.get(key, default)]: only a dict has the method. *)
Definition py_get (v : pyval) (key : str) (default : pyval) : result pyval :=
  match v with
  | PDict d =>
      Ok (match dict_lookup d key with Some x => x | None => default end)
  | _ => Err (Raise AttributeError
                (L "'" ++ type_name v ++ L "' object has no attribute 'get'"))
  end.

(** [l[idx]] on a list, a negative index counting from the end. *)
Definition py_index {A} (l : list A) (idx : Z) : result A :=
  let n := Z.of_nat (List.length l) in
  let i := if (idx <? 0)%Z then (idx + n)%Z else idx in
  if ((0 <=? i) && (i <? n))%Z then
    match nth_error l (Z.to_nat i) with
    | Some x => Ok x
    | None => Err (Raise IndexError (L "list index out of range"))
    end
  else Err (Raise IndexError (L "list index out of range")).

End Py.
Import Py.

Declare Scope py_scope.
Delimit Scope py_scope with py.
Notation "x <- m ;; k" := (bind m (fun x => k))
  (at level 61, m at next level, right associativity) : py_scope.
Notation "x <~ r ;; k" := (rbind r (fun x => k))
  (at level 61, r at next level, right associativity) : py_scope.

(* ================================================================== *)
(** * semantic_search.py *)
(* ================================================================== *)

Module SemanticSearch.
Import DocumentProcessor.
Local Open Scope py_scope.

(** An embedding: the list of its coordinates. *)
Definition vec := list Q.

(** A clause of the ranking result: the copy of the clause dict with the keys
    ["similarity_score"] and ["rank"] added. *)
Record RankedClause := mkRanked {
  rc_clause : Clause;
  similarity_score : Q;
  rank : nat
}.

(** [a > b] on scores. *)
Definition Qgtb (a b : Q) : bool := negb (Qle_bool a b).

Definition threshold : Q := 3 # 10.

(** What the name [faiss] stands for when it is bound: building an
    [IndexFlatIP] of dimension [d], adding the rows [xb] and searching the
    [k] nearest rows of the query [xq], as the list
    [zip(similarities[0], indices[0])]. *)
Record Faiss := mkFaiss {
  flat_ip_search : nat -> list vec -> vec -> nat -> result (list (Q * Z))
}.

(** [np.array(rows).astype('float32')]: the rows must have one length. *)
Definition np_array (rows : list vec) : result (list vec) :=
  match rows with
  | [] => Ok []
  | r :: rs =>
      if forallb (fun r' => List.length r' =? List.length r) rs then Ok rows
      else Err (Raise ValueError
                  (L "setting an array element with a sequence."))
  end.

(** The loop over [enumerate(zip(similarities[0], indices[0]))], from
    position [i] on. *)
Fixpoint collect (i : nat) (hits : list (Q * Z)) (clauses : list Clause)
  : result (list RankedClause) :=
  match hits with
  | [] => Ok []
  | (similarity, idx) :: rest =>
      if Qgtb similarity threshold then
        clause <~ py_index clauses idx ;;
        tl <~ collect (S i) rest clauses ;;
        Ok ({| rc_clause := clause;
               similarity_score := similarity;
               rank := i + 1 |} :: tl)
      else collect (S i) rest clauses
  end.

(** [sorted(l, key=lambda x: x["similarity_score"], reverse=True)]: the
    stable sort by descending score.  [insert_desc x l] puts [x], which
    stood before every element of [l], in front of the first element whose
    score is not greater than its own. *)
Fixpoint insert_desc (x : RankedClause) (l : list RankedClause)
  : list RankedClause :=
  match l with
  | [] => [x]
  | y :: l' =>
      if Qgtb (similarity_score y) (similarity_score x)
      then y :: insert_desc x l'
      else x :: l
  end.

Fixpoint sorted_desc (l : list RankedClause) : list RankedClause :=
  match l with
  | [] => []
  | x :: l' => insert_desc x (sorted_desc l')
  end.

(** The body of the [try] of [_find_similar_clauses], where the global name
    [faiss] resolves to [faiss_binding] ([None]: the name is not bound). *)
Definition find_similar_body (faiss_binding : option Faiss)
    (question_embedding : vec) (clause_embeddings : list vec)
    (clauses : list Clause) : result (list RankedClause) :=
  match clause_embeddings with
  | [] => Ok []
  | _ :: _ =>
      question_vector <~ np_array [question_embedding] ;;
      clause_vectors <~ np_array clause_embeddings ;;
      let dimension := List.length question_embedding in
      match faiss_binding with
      | None => Err (Raise NameError (L "name 'faiss' is not defined"))
      | Some faiss =>
          hits <~ flat_ip_search faiss dimension clause_vectors
                    question_embedding (Nat.min 5 (List.length clauses)) ;;
          relevant_clauses <~ collect 0 hits clauses ;;
          Ok (sorted_desc relevant_clauses)
      end
  end.

Definition find_similar_clauses_with (faiss_binding : option Faiss)
    (question_embedding : vec) (clause_embeddings : list vec)
    (clauses : list Clause) : list RankedClause :=
  match find_similar_body faiss_binding question_embedding
          clause_embeddings clauses with
  | Ok r => r
  | Err _ => []
  end.

(** The names the module binds are those of its import statements (lines 1
    to 7: [os], [np], [openai], [List], [Dict], [Any], [logging], [asyncio],
    [cosine_similarity]), [logger] and the class; no statement binds
    [faiss]. *)
Definition module_faiss : option Faiss := None.

Definition _find_similar_clauses := find_similar_clauses_with module_faiss.

Section Provider.
Variable W : Type.
(** [openai_client.embeddings.create(model=..., input=text)] followed by
    [response.data[0].embedding]. *)
Variable embeddings_create : str -> M W vec.

Definition _get_embedding (text : str) : M W vec :=
  try_except (embeddings_create text)
    (fun e => raise (Raise Exception
                       (L "Embedding generation failed: " ++ exn_str e))).

Fixpoint _get_clause_embeddings (clauses : list Clause) : M W (list vec) :=
  match clauses with
  | [] => ret []
  | clause :: rest =>
      embedding <- _get_embedding (clause_content clause) ;;
      embeddings <- _get_clause_embeddings rest ;;
      ret (embedding :: embeddings)
  end.

Definition search_clauses_with (faiss_binding : option Faiss)
    (question : str) (clauses : list Clause) : M W (list RankedClause) :=
  try_except
    (match clauses with
     | [] => ret []
     | _ :: _ =>
         question_embedding <- _get_embedding question ;;
         clause_embeddings <- _get_clause_embeddings clauses ;;
         ret (find_similar_clauses_with faiss_binding question_embedding
                clause_embeddings clauses)
     end)
    (fun _ => ret []).

Definition search_clauses := search_clauses_with module_faiss.
End Provider.

(** ** A flat inner-product index

    A reference for what [faiss.IndexFlatIP] returns, used to run the ranking
    on examples: the inner product of the query with every row, the [k]
    largest first, equal products by ascending row number, padded with the
    label [-1] and the score [-FLT_MAX] when the index holds fewer than [k]
    rows. *)
Fixpoint inner_product (a b : vec) : Q :=
  match a, b with
  | x :: a', y :: b' => (x * y + inner_product a' b')%Q
  | _, _ => 0%Q
  end.

Fixpoint insert_hit (h : Q * Z) (l : list (Q * Z)) : list (Q * Z) :=
  match l with
  | [] => [h]
  | y :: l' => if Qgtb (fst y) (fst h) then y :: insert_hit h l' else h :: l
  end.

Fixpoint sort_hits (l : list (Q * Z)) : list (Q * Z) :=
  match l with
  | [] => []
  | h :: l' => insert_hit h (sort_hits l')
  end.

Fixpoint score_rows (i : Z) (xb : list vec) (xq : vec) : list (Q * Z) :=
  match xb with
  | [] => []
  | row :: xb' => (inner_product xq row, i) :: score_rows (i + 1)%Z xb' xq
  end.

Definition neg_flt_max : Q := (- (inject_Z (2 ^ 128 - 2 ^ 104)))%Q.

Definition reference_search (d : nat) (xb : list vec) (xq : vec) (k : nat)
  : result (list (Q * Z)) :=
  if negb (forallb (fun row => List.length row =? d) xb)
  then Err (Raise AssertionError [])
  else if k =? 0 then Err (Raise AssertionError [])
  else
    let top := firstn k (sort_hits (score_rows 0 xb xq)) in
    Ok (top ++ repeat (neg_flt_max, (-1)%Z) (k - List.length top)).

Definition reference_faiss : Faiss := mkFaiss reference_search.

End SemanticSearch.

(* ================================================================== *)
(** * decision_engine.py *)
(* ================================================================== *)

Module DecisionEngine.
Import DocumentProcessor SemanticSearch.
Local Open Scope py_scope.

(** The dict [evaluate_decision] returns. *)
Record Decision := mkDecision {
  answer : pyval;
  rationale : pyval;
  relevant_clauses : list RankedClause;
  confidence : pyval
}.

(** The double quote character, and a text between double quotes. *)
Definition dq : str := [ascii_of_nat 34].
Definition quoted (s : string) : str := dq ++ L s ++ dq.

Definition no_information : Decision :=
  {| answer := PStr (L "No relevant information found in the document.");
     rationale := PStr (L "The document does not contain information relevant to the question.");
     relevant_clauses := [];
     confidence := PFloat 0 |}.

(** The dict of the [except] branch of [evaluate_decision]. *)
Definition error_decision (e : exn) (clauses : list RankedClause) : Decision :=
  {| answer := PStr (L "Error processing the question.");
     rationale := PStr (L "Technical error: " ++ exn_str e);
     relevant_clauses := match clauses with
                         | [] => []
                         | _ :: _ => firstn 3 clauses
                         end;
     confidence := PFloat 0 |}.

(** The loop over [enumerate(clauses[:5])], from position [i] on. *)
Fixpoint context_parts (i : nat) (clauses : list RankedClause) : list str :=
  match clauses with
  | [] => []
  | clause :: rest =>
      (L "Clause " ++ str_of_nat (i + 1) ++ L " (Type: "
         ++ clause_type (rc_clause clause) ++ L "): "
         ++ clause_content (rc_clause clause))
      :: context_parts (S i) rest
  end.

Definition _build_context (clauses : list RankedClause) : str :=
  join [newline; newline] (context_parts 0 (firstn 5 clauses)).

Definition _build_prompt (question context : str) : str :=
  join [newline]
    [ L "You are an expert insurance and legal document analyzer. Based on the provided document clauses, answer the question with a structured response.";
      [];
      L "Document Clauses:";
      context;
      [];
      L "Question: " ++ question;
      [];
      L "Please provide a JSON response with the following structure:";
      L "{";
      L "    " ++ quoted "answer" ++ L ": "
        ++ quoted "Direct answer to the question based on the clauses" ++ L ",";
      L "    " ++ quoted "rationale" ++ L ": "
        ++ quoted "Detailed explanation of how the clauses support the answer"
        ++ L ",";
      L "    " ++ quoted "confidence" ++ L ": 0.0-1.0";
      L "}";
      [];
      L "Focus on specific details like:";
      L "- Grace periods";
      L "- Waiting periods  ";
      L "- Coverage limits";
      L "- Exclusions";
      L "- Conditions";
      L "- Specific medical procedures mentioned";
      L "- Policy terms and definitions";
      [];
      L "If the clauses don't contain relevant information, state that clearly in the answer." ].

(** The three dicts [_parse_response] returns when it gives up. *)
Definition fallback (response rationale_text : str) (c : Q) : pyval :=
  PDict [ (L "answer", PStr response);
          (L "rationale", PStr rationale_text);
          (L "confidence", PFloat c) ].

Definition exn_class_eqb (a b : exn_class) : bool :=
  match a, b with
  | JSONDecodeError, JSONDecodeError | AttributeError, AttributeError
  | NameError, NameError | IndexError, IndexError | ValueError, ValueError
  | AssertionError, AssertionError | HTTPException, HTTPException
  | Exception, Exception => true
  | _, _ => false
  end.

(** The text handed to [json.loads]: [None] on the branch that returns the
    first fallback dict without parsing. *)
Definition json_candidate (response : str) : option str :=
  if contains (L "```json") response then
    let json_start := (find (L "```json") response + 7)%Z in
    let json_end := find_from (L "```") response json_start in
    Some (strip (slice response json_start json_end))
  else if contains (L "{") response && contains (L "}") response then
    let json_start := find (L "{") response in
    let json_end := (rfind (L "}") response + 1)%Z in
    Some (slice response json_start json_end)
  else None.

Section Engine.
Variable W : Type.
(** [json.loads] of the standard library. *)
Variable json_loads : str -> result pyval.
(** [openai_client.chat.completions.create(...)] with the fixed model,
    system message, temperature and token bound, on the user message
    [prompt], followed by [response.choices[0].message.content]. *)
Variable chat_completions_create : str -> M W str.

Definition _parse_response (response : str) : pyval :=
  match json_candidate response with
  | None => fallback response (L "Response could not be parsed as JSON") (1 # 2)
  | Some json_str =>
      match json_loads json_str with
      | Ok v => v
      | Err e =>
          if exn_class_eqb (exn_cls e) JSONDecodeError
          then fallback response (L "Response parsing failed") (3 # 10)
          else fallback response (L "Response processing error") (3 # 10)
      end
  end.

Definition _get_gpt_response (prompt : str) : M W str :=
  try_except (chat_completions_create prompt)
    (fun e => raise (Raise Exception
                       (L "GPT-4 evaluation failed: " ++ exn_str e))).

(** The body of the [try] of [evaluate_decision]. *)
Definition evaluate_body (question : str) (clauses : list RankedClause)
  : M W Decision :=
  match clauses with
  | [] => ret no_information
  | _ :: _ =>
      let context := _build_context clauses in
      let prompt := _build_prompt question context in
      response <- _get_gpt_response prompt ;;
      let parsed_response := _parse_response response in
      lift (a <~ py_get parsed_response (L "answer")
                   (PStr (L "Unable to determine answer.")) ;;
            r <~ py_get parsed_response (L "rationale")
                   (PStr (L "Insufficient information to provide rationale.")) ;;
            c <~ py_get parsed_response (L "confidence") (PFloat (1 # 2)) ;;
            Ok {| answer := a;
                  rationale := r;
                  relevant_clauses := firstn 3 clauses;
                  confidence := c |})
  end.

Definition evaluate_decision (question : str) (clauses : list RankedClause)
  : M W Decision :=
  try_except (evaluate_body question clauses)
    (fun e => ret (error_decision e clauses)).

End Engine.

End DecisionEngine.

(* ================================================================== *)
(** * A reference for [json.loads]

    [json] is the standard library's; the theorems on [_parse_response] hold
    for every loader.  This reader is the one the examples run: it follows
    the JSON grammar as [json.loads] reads it (white space, [null], [true],
    [false], strings with the one-letter escapes, integers and decimal
    fractions, arrays, objects with the last of two equal keys winning), and
    rejects what it does not cover (exponents, [\u] escapes, [NaN],
    [Infinity]). *)
(* ================================================================== *)

Module JsonRef.

Definition code (c : ascii) : nat := nat_of_ascii c.

Definition json_ws (c : ascii) : bool :=
  (code c =? 32) || (code c =? 9) || (code c =? 10) || (code c =? 13).

Fixpoint skip_ws (s : str) : str :=
  match s with
  | c :: s' => if json_ws c then skip_ws s' else s
  | [] => []
  end.

Definition is_digit (c : ascii) : bool := (48 <=? code c) && (code c <=? 57).

Fixpoint take_digits (s : str) : list nat * str :=
  match s with
  | c :: s' =>
      if is_digit c
      then let (ds, r) := take_digits s' in ((code c - 48) :: ds, r)
      else ([], s)
  | [] => ([], [])
  end.

Definition digits_value (ds : list nat) : Z :=
  fold_left (fun acc d => (acc * 10 + Z.of_nat d)%Z) ds 0%Z.

(** The integer part: a lone [0], or digits that do not start with [0]. *)
Definition int_part (s : str) : option (list nat * str) :=
  match s with
  | c :: s' =>
      if code c =? 48 then Some ([0], s')
      else match take_digits s with
           | ([], _) => None
           | (ds, r) => Some (ds, r)
           end
  | [] => None
  end.

Definition starts_exponent (s : str) : bool :=
  match s with
  | c :: _ => (code c =? 101) || (code c =? 69)
  | [] => false
  end.

Definition parse_number (s : str) : option (pyval * str) :=
  let (neg, s1) := match s with
                   | c :: s' => if code c =? 45 then (true, s') else (false, s)
                   | [] => (false, s)
                   end in
  let sign (z : Z) := if neg then (- z)%Z else z in
  match int_part s1 with
  | None => None
  | Some (ds, r) =>
      match r with
      | c :: r' =>
          if code c =? 46 then
            match take_digits r' with
            | ([], _) => Some (PInt (sign (digits_value ds)), r)
            | (fs, r'') =>
                if starts_exponent r'' then None
                else Some (PFloat (Qred (Qmake (sign (digits_value (ds ++ fs)))
                                           (Pos.pow 10 (Pos.of_nat (List.length fs))))),
                           r'')
            end
          else if starts_exponent r then None
          else Some (PInt (sign (digits_value ds)), r)
      | [] => Some (PInt (sign (digits_value ds)), r)
      end
  end.

(** The character a one-letter escape stands for. *)
Definition unescape (c : ascii) : option ascii :=
  let n := code c in
  if (n =? 34) || (n =? 92) || (n =? 47) then Some c
  else if n =? 110 then Some (ascii_of_nat 10)
  else if n =? 116 then Some (ascii_of_nat 9)
  else if n =? 114 then Some (ascii_of_nat 13)
  else if n =? 98 then Some (ascii_of_nat 8)
  else if n =? 102 then Some (ascii_of_nat 12)
  else None.

(** The rest of a string after its opening quote. *)
Fixpoint parse_string_body (s : str) (acc : str) : option (str * str) :=
  match s with
  | [] => None
  | c :: r =>
      if code c =? 34 then Some (rev acc, r)
      else if code c =? 92 then
        match r with
        | e :: r' =>
            match unescape e with
            | Some x => parse_string_body r' (x :: acc)
            | None => None
            end
        | [] => None
        end
      else if code c <? 32 then None
      else parse_string_body r (c :: acc)
  end.

(** [d[k] = v] on a dict kept as its list of items. *)
Fixpoint dict_set (d : list (str * pyval)) (k : str) (v : pyval)
  : list (str * pyval) :=
  match d with
  | [] => [(k, v)]
  | (k', v') :: d' =>
      if str_eqb k' k then (k', v) :: d' else (k', v') :: dict_set d' k v
  end.

Definition literal (word : string) (s : str) : option str :=
  if startswith (L word) s then Some (skipn (List.length (L word)) s) else None.

Fixpoint parse_value (fuel : nat) (s : str) : option (pyval * str) :=
  match fuel with
  | O => None
  | S f =>
      match skip_ws s with
      | [] => None
      | c :: r =>
          if code c =? 34 then
            match parse_string_body r [] with
            | Some (x, r') => Some (PStr x, r')
            | None => None
            end
          else if code c =? 91 then
            match skip_ws r with
            | c' :: r' =>
                if code c' =? 93 then Some (PList [], r')
                else parse_items f (c' :: r') []
            | [] => None
            end
          else if code c =? 123 then
            match skip_ws r with
            | c' :: r' =>
                if code c' =? 125 then Some (PDict [], r')
                else parse_members f (c' :: r') []
            | [] => None
            end
          else if code c =? 110 then
            option_map (fun r' => (PNone, r')) (literal "null" (c :: r))
          else if code c =? 116 then
            option_map (fun r' => (PBool true, r')) (literal "true" (c :: r))
          else if code c =? 102 then
            option_map (fun r' => (PBool false, r')) (literal "false" (c :: r))
          else parse_number (c :: r)
      end
  end
with parse_items (fuel : nat) (s : str) (acc : list pyval)
  : option (pyval * str) :=
  match fuel with
  | O => None
  | S f =>
      match parse_value f s with
      | None => None
      | Some (v, r) =>
          match skip_ws r with
          | c :: r' =>
              if code c =? 44 then parse_items f (skip_ws r') (v :: acc)
              else if code c =? 93 then Some (PList (rev (v :: acc)), r')
              else None
          | [] => None
          end
      end
  end
with parse_members (fuel : nat) (s : str) (acc : list (str * pyval))
  : option (pyval * str) :=
  match fuel with
  | O => None
  | S f =>
      match s with
      | q :: s' =>
          if code q =? 34 then
            match parse_string_body s' [] with
            | None => None
            | Some (k, r) =>
                match skip_ws r with
                | c :: r1 =>
                    if code c =? 58 then
                      match parse_value f r1 with
                      | None => None
                      | Some (v, r2) =>
                          match skip_ws r2 with
                          | c' :: r3 =>
                              if code c' =? 44
                              then parse_members f (skip_ws r3) (dict_set acc k v)
                              else if code c' =? 125
                              then Some (PDict (dict_set acc k v), r3)
                              else None
                          | [] => None
                          end
                      end
                    else None
                | [] => None
                end
            end
          else None
      | [] => None
      end
  end.

Definition json_loads (s : str) : result pyval :=
  match parse_value (S (List.length s)) s with
  | Some (v, r) =>
      match skip_ws r with
      | [] => Ok v
      | _ :: _ => Err (Raise JSONDecodeError (L "Extra data"))
      end
  | None => Err (Raise JSONDecodeError (L "Expecting value"))
  end.

End JsonRef.

(* ================================================================== *)
(** * main.py: the question loop of [run_query] *)
(* ================================================================== *)

Module Main.
Import DocumentProcessor SemanticSearch DecisionEngine.
Local Open Scope py_scope.

(** One entry of [answers]. *)
Record AnswerEntry := mkAnswer {
  entry_question : str;
  entry_answer : pyval;
  entry_rationale : pyval;
  entry_relevant_clauses : list RankedClause;
  entry_confidence : pyval
}.

Section Service.
Variable W : Type.
Variable json_loads : str -> result pyval.
Variable embeddings_create : str -> M W vec.
Variable chat_completions_create : str -> M W str.
(** [document_processor.process_document(url)["clauses"]] up to the text
    extraction: the fetch and the PDF, DOCX or UTF-8 reading give the text
    of the document or raise. *)
Variable fetch_text : str -> M W str.

Definition process_document (url : str) : M W (list Clause) :=
  try_except
    (text <- fetch_text url ;; ret (_extract_clauses text))
    (fun e => raise (Raise Exception
                       (L "Failed to process document: " ++ exn_str e))).

(** [for question in request.questions: ...], where the global [faiss] of
    [semantic_search] resolves to [faiss_binding]. *)
Fixpoint answer_questions (faiss_binding : option Faiss)
    (clauses : list Clause) (questions : list str)
  : M W (list AnswerEntry) :=
  match questions with
  | [] => ret []
  | question :: rest =>
      relevant <- search_clauses_with embeddings_create faiss_binding
                    question clauses ;;
      decision_result <- evaluate_decision json_loads
                           chat_completions_create question relevant ;;
      answers <- answer_questions faiss_binding clauses rest ;;
      ret ({| entry_question := question;
              entry_answer := answer decision_result;
              entry_rationale := rationale decision_result;
              entry_relevant_clauses := relevant_clauses decision_result;
              entry_confidence := confidence decision_result |}
           :: answers)
  end.

Definition run_query_with (faiss_binding : option Faiss)
    (documents : str) (questions : list str) : M W (list AnswerEntry) :=
  try_except
    (documents_content <- process_document documents ;;
     answer_questions faiss_binding documents_content questions)
    (fun e => raise (Raise HTTPException
                       (L "Internal server error: " ++ exn_str e))).

Definition run_query := run_query_with module_faiss.
End Service.

End Main.

(* ================================================================== *)
(** * Predicates of the statements, and the inputs of the examples *)
(* ================================================================== *)

Module Statements.
Import DocumentProcessor SemanticSearch DecisionEngine.

(** [p] occurs in [t]. *)
Definition occurs (p t : str) : Prop := exists a b, t = a ++ p ++ b.

(** One of [words] occurs in the lowercased [text]. *)
Definition has_any (words : list str) (text : str) : Prop :=
  exists w, In w words /\ occurs w (lower text).

(** The white space that starts [s] holds no newline: a separator that ends
    just before [s] cannot be extended into it. *)
Definition no_newline_ahead (s : str) : Prop := sep_len s = None.

(** No separator starts inside [a] when [rest] follows it: after every
    newline of [a] the white space that follows holds no newline. *)
Definition no_boundary_in (a rest : str) : Prop :=
  forall a1 a2, a = a1 ++ newline :: a2 -> sep_len (a2 ++ rest) = None.

(** The section is kept by the noise filter. *)
Definition retained (section : str) : bool := 50 <? List.length (strip section).

(** The positions, counted from [i], of the sections the filter keeps. *)
Fixpoint retained_indices (i : nat) (sections : list str) : list nat :=
  match sections with
  | [] => []
  | section :: rest =>
      if retained section then i :: retained_indices (S i) rest
      else retained_indices (S i) rest
  end.

Definition id_of_index (i : nat) : str := L "clause_" ++ str_of_nat i.

Definition backtick : ascii := ascii_of_nat 96.
Definition fence : str := L "```".
Definition fence_json : str := L "```json".

(** The decision [evaluate_decision] builds once the completion has
    answered and [_parse_response] has returned [parsed]: the three [get]
    calls of the [return], and the [except] branch when [parsed] has no
    [get]. *)
Definition decision_from (parsed : pyval) (clauses : list RankedClause)
  : Decision :=
  match py_get parsed (L "answer") (PStr (L "Unable to determine answer.")),
        py_get parsed (L "rationale")
               (PStr (L "Insufficient information to provide rationale.")),
        py_get parsed (L "confidence") (PFloat (1 # 2)) with
  | Ok a, Ok r, Ok c =>
      {| answer := a; rationale := r;
         relevant_clauses := firstn 3 clauses; confidence := c |}
  | Err e, _, _ | _, Err e, _ | _, _, Err e => error_decision e clauses
  end.

(** [d.get(key, default)] on the items of a dict. *)
Definition get_or (items : list (str * pyval)) (key : string)
    (default : pyval) : pyval :=
  match dict_lookup items (L key) with Some v => v | None => default end.

(** A number between 0 and 1. *)
Definition in_unit_interval (v : pyval) : Prop :=
  match v with
  | PFloat q => (0 <= q)%Q /\ (q <= 1)%Q
  | PInt z => (0 <= z <= 1)%Z
  | _ => False
  end.

(** The hit passes the threshold. *)
Definition above (h : Q * Z) : bool := Qgtb (fst h) threshold.


(** The ranked clause was made from the hit: its score is the hit's and its
    clause is the one the hit's label points to. *)
Definition made_from (clauses : list Clause) (rc : RankedClause)
    (h : Q * Z) : Prop :=
  similarity_score rc = fst h /\ py_index clauses (snd h) = Ok (rc_clause rc).

(** ** Inputs of the examples *)

(** A completion endpoint that answers [text] to every prompt, and one that
    fails with the message [msg]; the outside world has no state. *)
Definition answering (text : str) : str -> M unit str :=
  fun _ w => (Ok text, w).
Definition failing (msg : str) : str -> M unit str :=
  fun _ w => (Err (Raise Exception msg), w).

Definition nl : str := [newline].

(** A text that names both an exclusion and the policy. *)
Definition both_keywords : str :=
  L "EXCLUSION: this Policy does not pay for cosmetic surgery.".

Definition not_covered_text : str :=
  L "Dental work is NOT COVERED by this plan.".

Definition section_b : str :=
  L "Section B excludes maternity for nine months after the start.".

(** A short heading, a blank line, and one section of 61 characters. *)
Definition header_text : str := L "Header" ++ nl ++ nl ++ section_b.

(** A heading of two lines, a separator with a blank in it, the section. *)
Definition two_line_header : str := L "Policy" ++ nl ++ L "Schedule".
Definition two_line_text : str :=
  two_line_header ++ nl ++ L " " ++ nl ++ section_b.

Definition c0 : Clause :=
  mkClause (L "clause_0") section_b 61 (L "exclusion").
Definition c1 : Clause :=
  mkClause (L "clause_1") (L "Section A covers knee surgery in network hospitals only.")
           56 (L "coverage").
Definition c2 : Clause :=
  mkClause (L "clause_2") (L "The waiting period for cataract surgery is two full years.")
           58 (L "general").
Definition c3 : Clause :=
  mkClause (L "clause_3") (L "A grace period of thirty days applies to late premiums.")
           55 (L "general").

Definition four_clauses : list Clause := [c0; c1; c2; c3].

Definition question_vector : vec := [1; 0]%Q.

(** An embedding endpoint that fails on the text [bad] and embeds every
    other text as the question vector. *)
Definition flaky_embeddings (bad : str) : str -> M unit vec :=
  fun text w =>
    if str_eqb text bad
    then (Err (Raise Exception (L "rate limit reached")), w)
    else (Ok question_vector, w).

Definition maternity_question : str := L "Is maternity covered?".

(** The entry of a question for which nothing was found. *)
Definition nothing_found (question : str) : Main.AnswerEntry :=
  {| Main.entry_question := question;
     Main.entry_answer :=
       PStr (L "No relevant information found in the document.");
     Main.entry_rationale :=
       PStr (L "The document does not contain information relevant to the question.");
     Main.entry_relevant_clauses := [];
     Main.entry_confidence := PFloat 0 |}.

Definition knee_question : str := L "Is knee surgery covered?".

Definition four_ranked : list RankedClause :=
  [ mkRanked c1 (9 # 10) 1; mkRanked c0 (7 # 10) 2;
    mkRanked c2 (1 # 2) 3; mkRanked c3 (2 # 5) 4 ].

(** [Here is JSON: {"answer": "yes", "confidence": 0.9}] *)
Definition prose_then_json : str :=
  L "Here is JSON: {" ++ quoted "answer" ++ L ": " ++ quoted "yes" ++ L ", "
    ++ quoted "confidence" ++ L ": 0.9}".

(** The same object in a fenced block. *)
Definition fenced_json : str :=
  L "Sure." ++ nl ++ fence_json ++ nl ++ L "{" ++ quoted "answer" ++ L ": "
    ++ quoted "yes" ++ L "}" ++ nl ++ fence ++ nl.

(** [{"answer": "yes", "confidence": 7}] *)
Definition confidence_seven : str :=
  L "{" ++ quoted "answer" ++ L ": " ++ quoted "yes" ++ L ", "
    ++ quoted "confidence" ++ L ": 7}".

(** [{"answer": "yes", "confidence": "high"}] *)
Definition confidence_high : str :=
  L "{" ++ quoted "answer" ++ L ": " ++ quoted "yes" ++ L ", "
    ++ quoted "confidence" ++ L ": " ++ quoted "high" ++ L "}".

End Statements.
Import Statements.

(* ================================================================== *)
(** * document_processor.py: fetching and reading a document *)
(* ================================================================== *)

Module DocumentPipeline.
Import DocumentProcessor.
Local Open Scope py_scope.

Definition bytes := list Byte.byte.

Definition supported_extensions : list str := [L ".pdf"; L ".docx"; L ".doc"].

(** [for ext in exts: if ext in url_lower: return ext] *)
Fixpoint first_extension (exts : list str) (url_lower : str) : option str :=
  match exts with
  | [] => None
  | ext :: rest =>
      if contains ext url_lower then Some ext
      else first_extension rest url_lower
  end.

Definition _get_file_extension (url : str) : str :=
  let url_lower := lower url in
  match first_extension supported_extensions url_lower with
  | Some ext => ext
  | None => L ".txt"
  end.

(** The dict the three readers return; [doc_metadata] is the inner dict. *)
Record ProcessedDocument := mkDocument {
  doc_type : str;
  doc_content : str;
  doc_clauses : list Clause;
  doc_metadata : list (str * nat)
}.

(** [text_content = ""], then [text_content += part + "\n"] for each part. *)
Fixpoint append_lines (parts : list str) : str :=
  match parts with
  | [] => []
  | part :: rest => part ++ [newline] ++ append_lines rest
  end.

Section Readers.
Variable W : Type.
(** [session.get(url)], as the status of the response, and
    [response.read()]. *)
Variable session_get : str -> M W nat.
Variable response_read : str -> M W bytes.
(** [PyPDF2.PdfReader(io.BytesIO(content))] and [extract_text()] of each
    page, in order; raises when either does. *)
Variable pdf_page_texts : bytes -> result (list str).
(** [docx.Document(io.BytesIO(content))] and [text] of each paragraph. *)
Variable docx_paragraph_texts : bytes -> result (list str).
(** [content.decode('utf-8', errors='ignore')] *)
Variable decode_utf8_ignore : bytes -> str.

Definition _fetch_document (url : str) : M W bytes :=
  status <- session_get url ;;
  if negb (status =? 200)
  then raise (Raise Exception
                (L "Failed to fetch document: " ++ str_of_nat status))
  else response_read url.

(** [try: body  except Exception as e: raise Exception(prefix + str(e))] on
    a computation that touches nothing outside. *)
Definition reraise (prefix : string) {A} (r : result A) : result A :=
  match r with
  | Ok a => Ok a
  | Err e => Err (Raise Exception (L prefix ++ exn_str e))
  end.

Definition _process_pdf (content : bytes) : result ProcessedDocument :=
  reraise "PDF processing failed: "
    (pages <~ pdf_page_texts content ;;
     let text_content := append_lines pages in
     let clauses := _extract_clauses text_content in
     Ok {| doc_type := L "pdf";
           doc_content := text_content;
           doc_clauses := clauses;
           doc_metadata :=
             [ (L "pages", List.length pages);
               (L "extracted_text_length", List.length text_content) ] |}).

Definition _process_docx (content : bytes) : result ProcessedDocument :=
  reraise "DOCX processing failed: "
    (paragraphs <~ docx_paragraph_texts content ;;
     let text_content := append_lines paragraphs in
     let clauses := _extract_clauses text_content in
     Ok {| doc_type := L "docx";
           doc_content := text_content;
           doc_clauses := clauses;
           doc_metadata :=
             [ (L "paragraphs", List.length paragraphs);
               (L "extracted_text_length", List.length text_content) ] |}).

Definition _process_text (content : bytes) : result ProcessedDocument :=
  reraise "Text processing failed: "
    (let text_content := decode_utf8_ignore content in
     let clauses := _extract_clauses text_content in
     Ok {| doc_type := L "text";
           doc_content := text_content;
           doc_clauses := clauses;
           doc_metadata :=
             [ (L "extracted_text_length", List.length text_content) ] |}).

(** The body of the [try] of [process_document]. *)
Definition process_body (document_url : str) : M W ProcessedDocument :=
  content <- _fetch_document document_url ;;
  let file_extension := _get_file_extension document_url in
  if str_eqb file_extension (L ".pdf") then lift (_process_pdf content)
  else if existsb (str_eqb file_extension) [L ".docx"; L ".doc"]
  then lift (_process_docx content)
  else lift (_process_text content).

Definition process_document (document_url : str) : M W ProcessedDocument :=
  try_except (process_body document_url)
    (fun e => raise (Raise Exception
                       (L "Failed to process document: " ++ exn_str e))).

(** The text of the document, as [process_body] reads it. *)
Definition document_text (document_url : str) : M W str :=
  d <- process_body document_url ;; ret (doc_content d).

End Readers.

End DocumentPipeline.

(* ================================================================== *)
(** * semantic_search.py: [_batch_embeddings] *)
(* ================================================================== *)

Module BatchEmbeddings.
Import SemanticSearch.
Local Open Scope py_scope.

(** [[0.0] * 1536] *)
Definition zero_vector : vec := repeat 0%Q 1536.

Section Batch.
Variable W : Type.
(** [openai_client.embeddings.create(model=..., input=batch)] followed by
    [[data.embedding for data in response.data]]. *)
Variable embeddings_create_batch : list str -> M W (list vec).

(** The loop [for i in range(0, len(texts), batch_size)] for a positive
    [batch_size], on the texts from position [i] on; [fuel] bounds the number
    of rounds. *)
Fixpoint batch_loop (fuel : nat) (batch_size : nat) (texts : list str)
  : M W (list vec) :=
  match fuel with
  | O => ret []
  | S fuel' =>
      match texts with
      | [] => ret []
      | _ :: _ =>
          let batch := firstn batch_size texts in
          batch_embeddings <-
            try_except (embeddings_create_batch batch)
              (fun _ => ret (map (fun _ => zero_vector) batch)) ;;
          embeddings <- batch_loop fuel' batch_size (skipn batch_size texts) ;;
          ret (batch_embeddings ++ embeddings)
      end
  end.

(** [range] refuses a zero step and is empty for a negative one. *)
Definition _batch_embeddings (texts : list str) (batch_size : Z)
  : M W (list vec) :=
  if (batch_size =? 0)%Z
  then raise (Raise ValueError (L "range() arg 3 must not be zero"))
  else if (batch_size <? 0)%Z then ret []
  else batch_loop (List.length texts) (Z.to_nat batch_size) texts.

End Batch.

End BatchEmbeddings.

(* ================================================================== *)
(** * main.py: [verify_token] *)
(* ================================================================== *)

Module Auth.

(** [HTTPException(status_code=..., detail=...)] *)
Record HTTPError := mkHTTPError { status_code : nat; detail : str }.

(** [t.replace(old, new)] for a non-empty [old]: the occurrences of [old]
    are replaced from the left, without overlap.  [skip] characters of the
    occurrence just replaced are still to be dropped. *)
Fixpoint replace_scan (skip : nat) (old new t : str) : str :=
  match t with
  | [] => []
  | c :: rest =>
      match skip with
      | S k => replace_scan k old new rest
      | O =>
          if startswith old t
          then new ++ replace_scan (List.length old - 1) old new rest
          else c :: replace_scan 0 old new rest
      end
  end.

Definition replace (old new t : str) : str := replace_scan 0 old new t.

Definition bearer : str := L "Bearer ".

(** [authorization] is the header, [None] when it is absent;
    [bearer_token_env] is the environment variable [BEARER_TOKEN]. *)
Definition verify_token (authorization : option str)
    (bearer_token_env : option str) : HTTPError + str :=
  match authorization with
  | None => inl (mkHTTPError 401 (L "Invalid authorization header"))
  | Some header =>
      match header with
      | [] => inl (mkHTTPError 401 (L "Invalid authorization header"))
      | _ :: _ =>
          if negb (startswith bearer header)
          then inl (mkHTTPError 401 (L "Invalid authorization header"))
          else
            let token := replace bearer [] header in
            let expected_token :=
              match bearer_token_env with
              | Some t => t
              | None => L "default_token"
              end in
            if negb (str_eqb token expected_token)
            then inl (mkHTTPError 401 (L "Invalid token"))
            else inr token
      end
  end.

End Auth.

(* ================================================================== *)
(** * Predicates and inputs of the further statements *)
(* ================================================================== *)

Module MoreStatements.
Import DocumentProcessor SemanticSearch DecisionEngine DocumentPipeline.

(** The word starts and ends with a character that is not white space. *)
Definition solid (w : str) : bool :=
  match w, rev w with
  | c :: _, d :: _ => negb (is_space c) && negb (is_space d)
  | _, _ => false
  end.

Definition all_space (s : str) : Prop := Forall (fun c => is_space c = true) s.

(** [e[key]] on a metadata dict. *)
Fixpoint meta_lookup (d : list (str * nat)) (key : str) : option nat :=
  match d with
  | [] => None
  | (k, v) :: d' => if str_eqb k key then Some v else meta_lookup d' key
  end.

(** The part holds no newline, and holds a character that is not white
    space. *)
Definition one_line (part : str) : Prop := ~ In newline part.
Definition not_blank (part : str) : Prop := forallb is_space part = false.

(** [os.getenv("BEARER_TOKEN", "default_token")] *)
Definition expected_token (bearer_token_env : option str) : str :=
  match bearer_token_env with
  | Some t => t
  | None => L "default_token"
  end.

(** [n] copies of "Bearer " put end to end. *)
Definition bearers (n : nat) : str := List.concat (repeat Auth.bearer n).

(** What [_build_context] reads of a clause. *)
Definition shown (c : RankedClause) : str * str :=
  (clause_type (rc_clause c), clause_content (rc_clause c)).

(** ** Inputs of the examples *)

(** The four ranked clauses with other scores and ranks, and two more. *)
Definition six_ranked : list RankedClause :=
  [ mkRanked c1 (1 # 3) 7; mkRanked c0 (1 # 3) 7;
    mkRanked c2 (1 # 3) 7; mkRanked c3 (1 # 3) 7;
    mkRanked c0 (1 # 3) 7; mkRanked c1 (1 # 3) 7 ].
Definition five_ranked : list RankedClause :=
  four_ranked ++ [mkRanked c0 (2 # 5) 5].

(** A fenced block that holds a JSON array. *)
Definition fenced_array : str :=
  fence_json ++ nl ++ L "[1, 2]" ++ nl ++ fence.


(** A server that answers every request with the status [n] and the body
    [body]; readers that find the parts [parts] in every file, or none. *)
Definition status_is (n : nat) : str -> M unit nat := fun _ w => (Ok n, w).
Definition body_is (body : bytes) : str -> M unit bytes :=
  fun _ w => (Ok body, w).
Definition parts_are (parts : list str) : bytes -> result (list str) :=
  fun _ => Ok parts.
Definition unreadable : bytes -> result (list str) :=
  fun _ => Err (Raise Exception (L "EOF marker not found")).
Definition latin1 : bytes -> str := map Ascii.ascii_of_byte.

(** A batch endpoint that fails on a batch that starts with [bad] and
    embeds every other text as [[1]]. *)
Definition flaky_batches (bad : str) : list str -> M unit (list vec) :=
  fun batch w =>
    match batch with
    | first :: _ =>
        if str_eqb first bad
        then (Err (Raise Exception (L "rate limit reached")), w)
        else (Ok (map (fun _ => [1%Q]) batch), w)
    | [] => (Ok [], w)
    end.

Definition three_texts : list str := [L "alpha"; L "beta"; L "gamma"].

Definition docs_host_url : str := L "https://my.docs.example.com/policy.txt".
Definition pdf_url : str := L "https://example.com/sample-policy.pdf".

Definition policy_paragraphs : list str :=
  [ L "Section A covers knee surgery in network hospitals only.";
    L "Section B excludes maternity for nine months after the start." ].

End MoreStatements.
Import MoreStatements.

(* ================================================================== *)
(** * Predicates of the statements on ranking order and on the fence *)
(* ================================================================== *)

Module OrderStatements.
Import DocumentProcessor SemanticSearch DecisionEngine.










End OrderStatements.
Import OrderStatements.

Unset Implicit Arguments.

(* ================================================================== *)
(** * Facts on Python strings *)
(* ================================================================== *)

Lemma startswith_app (p r : str) : startswith p (p ++ r) = true.
Proof.
  induction p as [|c p IH]; simpl; [reflexivity|].
  now rewrite Ascii.eqb_refl, IH.
Qed.

Lemma startswith_inv (p t : str) :
  startswith p t = true -> exists r, t = p ++ r.
Proof.
  revert t; induction p as [|c p IH]; intros t H.
  - now exists t.
  - destruct t as [|d t]; simpl in H; [discriminate|].
    apply andb_true_iff in H as [Hc Hp].
    apply Ascii.eqb_eq in Hc; subst d.
    destruct (IH _ Hp) as [r ->]. now exists r.
Qed.

Lemma index_of_unfold (p t : str) :
  index_of p t =
  if startswith p t then Some 0
  else match t with
       | [] => None
       | _ :: t' => option_map S (index_of p t')
       end.
Proof. destruct t; reflexivity. Qed.

Lemma index_of_inv (p t : str) (i : nat) :
  index_of p t = Some i ->
  exists a b, t = a ++ p ++ b /\ List.length a = i.
Proof.
  revert i; induction t as [|c t IH]; intros i H;
    rewrite index_of_unfold in H;
    destruct (startswith p _) eqn:E.
  - injection H as <-. destruct (startswith_inv _ _ E) as [r Hr].
    exists [], r. now split.
  - discriminate.
  - injection H as <-. destruct (startswith_inv _ _ E) as [r Hr].
    exists [], r. now split.
  - destruct (index_of p t) as [j|] eqn:Ej; simpl in H; [|discriminate].
    injection H as <-.
    destruct (IH j eq_refl) as (a & b & -> & Hl).
    exists (c :: a), b. simpl. now rewrite Hl.
Qed.

Lemma index_of_app (p a b : str) :
  exists i, index_of p (a ++ p ++ b) = Some i /\ i <= List.length a.
Proof.
  induction a as [|c a (i & Hi & Hle)].
  - exists 0. simpl app. rewrite index_of_unfold, startswith_app. now split.
  - simpl app. rewrite index_of_unfold.
    destruct (startswith p (c :: a ++ p ++ b)).
    + exists 0. split; [reflexivity | apply Nat.le_0_l].
    + exists (S i). rewrite Hi. split; [reflexivity | simpl; lia].
Qed.

(** [p in t] holds exactly when [p] occurs in [t]. *)
Lemma contains_spec (p t : str) : contains p t = true <-> occurs p t.
Proof.
  unfold contains, occurs. split.
  - destruct (index_of p t) as [i|] eqn:E; [|discriminate].
    intros _. destruct (index_of_inv _ _ _ E) as (a & b & H & _). eauto.
  - intros (a & b & ->). destruct (index_of_app p a b) as (i & -> & _).
    reflexivity.
Qed.

Lemma occurs_trans (q p t : str) : occurs q p -> occurs p t -> occurs q t.
Proof.
  intros (a & b & ->) (a' & b' & ->).
  exists (a' ++ a), (b ++ b'). now rewrite !app_assoc.
Qed.

(** The first occurrence of a pattern lies after a prefix that does not hold
    the first character of the pattern. *)
Lemma index_of_after (c : ascii) (p a rest : str) :
  ~ In c a ->
  index_of (c :: p) (a ++ rest) =
  option_map (fun i => List.length a + i) (index_of (c :: p) rest).
Proof.
  intros Hn. induction a as [|x a IH].
  - simpl. now destruct (index_of (c :: p) rest).
  - simpl app. rewrite index_of_unfold.
    assert (Hx : Ascii.eqb c x = false).
    { apply Ascii.eqb_neq. intros ->. apply Hn. now left. }
    cbn [startswith]. rewrite Hx. cbn [andb].
    rewrite IH by (intros Hin; apply Hn; now right).
    now destruct (index_of (c :: p) rest).
Qed.

(* ================================================================== *)
(** * Clause classification *)
(* ================================================================== *)

Module ClassifyFacts.
Import DocumentProcessor.

Lemma any_in_spec (words : list str) (text : str) :
  any_in words (lower text) = true <-> has_any words text.
Proof.
  unfold any_in, has_any. rewrite existsb_exists.
  split; intros (w & Hin & H); exists w; split; trivial;
    now apply contains_spec.
Qed.

Lemma any_in_false (words : list str) (text : str) :
  ~ has_any words text -> any_in words (lower text) = false.
Proof.
  intros H. destruct (any_in words (lower text)) eqn:E; trivial.
  now apply any_in_spec in E.
Qed.

(** A coverage keyword decides, whatever else the text holds. *)
Lemma coverage_word_first (text : str) :
  has_any coverage_words text -> _classify_clause_type text = L "coverage".
Proof.
  intros H. unfold _classify_clause_type.
  apply any_in_spec in H. now rewrite H.
Qed.

(** C8: the category is decided by the first of the four keyword lists
    (coverage, exclusion, condition, limit, in this order) one of whose words
    occurs in the lowercased text, and is [general] when none does; so a
    text with a coverage keyword is [coverage] whatever else it holds. *)
Theorem classify_clause_type_priority (text : str) :
  (has_any coverage_words text ->
     _classify_clause_type text = L "coverage") /\
  (~ has_any coverage_words text -> has_any exclusion_words text ->
     _classify_clause_type text = L "exclusion") /\
  (~ has_any coverage_words text -> ~ has_any exclusion_words text ->
   has_any condition_words text ->
     _classify_clause_type text = L "condition") /\
  (~ has_any coverage_words text -> ~ has_any exclusion_words text ->
   ~ has_any condition_words text -> has_any limit_words text ->
     _classify_clause_type text = L "limit") /\
  (~ has_any coverage_words text -> ~ has_any exclusion_words text ->
   ~ has_any condition_words text -> ~ has_any limit_words text ->
     _classify_clause_type text = L "general").
Proof.
  unfold _classify_clause_type.
  repeat split; intros;
    repeat match goal with
           | H : ~ has_any _ _ |- _ => apply any_in_false in H; rewrite H
           | H : has_any _ _ |- _ => apply any_in_spec in H; rewrite H
           end; reflexivity.
Qed.

Lemma classify_clause_type_priority_witness :
  has_any exclusion_words both_keywords /\
  _classify_clause_type both_keywords = L "coverage".
Proof.
  split.
  - exists (L "exclusion"). split; [now left|].
    apply contains_spec. vm_compute. reflexivity.
  - apply (proj1 (classify_clause_type_priority both_keywords)).
    exists (L "policy"). split; [right; right; now left|].
    apply contains_spec. vm_compute. reflexivity.
Defined.

(** C10: a text whose lowercase form holds "not covered" holds "cover", a
    coverage keyword, and is classified [coverage], never [exclusion]. *)
Theorem not_covered_is_coverage (text : str) :
  occurs (L "not covered") (lower text) ->
  _classify_clause_type text = L "coverage" /\
  _classify_clause_type text <> L "exclusion".
Proof.
  intros H.
  assert (Hc : _classify_clause_type text = L "coverage").
  { apply coverage_word_first.
    exists (L "cover"). split; [right; now left|].
    apply occurs_trans with (p := L "not covered"); trivial.
    exists (L "not "), (L "ed"). reflexivity. }
  split; [exact Hc|]. rewrite Hc. discriminate.
Qed.

Lemma not_covered_is_coverage_witness :
  occurs (L "not covered") (lower not_covered_text) /\
  _classify_clause_type not_covered_text = L "coverage" /\
  _classify_clause_type not_covered_text <> L "exclusion".
Proof.
  assert (H : occurs (L "not covered") (lower not_covered_text)).
  { apply contains_spec. vm_compute. reflexivity. }
  split; [exact H | exact (not_covered_is_coverage not_covered_text H)].
Defined.

End ClassifyFacts.

(* ================================================================== *)
(** * Segmentation *)
(* ================================================================== *)

Module SegmentFacts.
Import DocumentProcessor.

Lemma last_newline_shift (s : str) (pos : nat) (best : option nat) :
  last_newline_in_run s pos best =
  match last_newline_in_run s 0 None with
  | Some m => Some (pos + m)
  | None => best
  end.
Proof.
  revert pos best; induction s as [|c s IH]; intros pos best; simpl.
  - reflexivity.
  - destruct (is_space c); [|reflexivity].
    rewrite (IH (S pos)), (IH 1).
    destruct (last_newline_in_run s 0 None) as [m|].
    + f_equal. lia.
    + destruct (Ascii.eqb c newline); [f_equal; lia | reflexivity].
Qed.

(** After the first newline of a separator, a run [ws] of white space and a
    newline that nothing extends are taken whole. *)
Lemma sep_len_run (ws b : str) :
  forallb is_space ws = true -> no_newline_ahead b ->
  sep_len (ws ++ newline :: b) = Some (S (List.length ws)).
Proof.
  unfold no_newline_ahead, sep_len. intros Hws Hb.
  induction ws as [|c ws IH]; simpl in *.
  - rewrite last_newline_shift, Hb. reflexivity.
  - apply andb_true_iff in Hws as [Hc Hws]. rewrite Hc.
    rewrite last_newline_shift, (IH Hws). f_equal.
Qed.

Lemma split_scan_skip (k : nat) (cur a rest : str) :
  List.length a = k -> split_scan k cur (a ++ rest) = split_scan 0 cur rest.
Proof.
  revert k; induction a as [|c a IH]; intros k Hk; simpl in *; subst k.
  - reflexivity.
  - apply IH. reflexivity.
Qed.

Lemma split_scan_plain (a rest : str) :
  no_boundary_in a rest ->
  forall cur, split_scan 0 cur (a ++ rest) = split_scan 0 (rev a ++ cur) rest.
Proof.
  induction a as [|c a IH]; intros Hn cur; simpl.
  - reflexivity.
  - assert (Ha : no_boundary_in a rest).
    { intros a1 a2 ->. apply (Hn (c :: a1) a2). reflexivity. }
    rewrite <- app_assoc. simpl.
    destruct (Ascii.eqb c newline) eqn:Hc; [|now apply IH].
    apply Ascii.eqb_eq in Hc. subst c.
    rewrite (Hn [] a eq_refl). now apply IH.
Qed.

Lemma no_newline_no_boundary (a rest : str) :
  ~ In newline a -> no_boundary_in a rest.
Proof.
  intros H a1 a2 ->. exfalso. apply H. apply in_or_app. right. now left.
Qed.

Lemma no_boundary_nil (rest : str) : no_boundary_in [] rest.
Proof. intros [|x a1] a2 H; discriminate. Qed.

Lemma no_boundary_cons (c : ascii) (a rest : str) :
  (Ascii.eqb c newline = true -> sep_len (a ++ rest) = None) ->
  no_boundary_in a rest -> no_boundary_in (c :: a) rest.
Proof.
  intros Hc Ha [|x a1] a2 H; injection H as -> ->.
  - apply Hc, Ascii.eqb_refl.
  - now apply (Ha a1 a2).
Qed.

(** A text in which no separator starts is one section. *)
Lemma split_no_boundary (text : str) :
  no_boundary_in text [] -> re_split_blank_lines text = [text].
Proof.
  intros H. unfold re_split_blank_lines.
  rewrite <- (app_nil_r text) at 1.
  rewrite split_scan_plain by assumption. simpl.
  now rewrite app_nil_r, rev_involutive.
Qed.

(** The text is cut at its first blank-line boundary: a newline, white space
    and a last newline; the section before it is returned and the scan goes
    on after it. *)
Lemma split_at_boundary (a ws b : str) :
  no_boundary_in a (newline :: ws ++ newline :: b) ->
  forallb is_space ws = true -> no_newline_ahead b ->
  re_split_blank_lines (a ++ newline :: ws ++ newline :: b)
  = a :: re_split_blank_lines b.
Proof.
  intros Ha Hws Hb. unfold re_split_blank_lines.
  rewrite split_scan_plain by assumption. rewrite app_nil_r.
  cbn [split_scan]. rewrite Ascii.eqb_refl, (sep_len_run _ _ Hws Hb).
  rewrite rev_involutive. f_equal.
  change (ws ++ newline :: b) with (ws ++ [newline] ++ b).
  rewrite app_assoc. apply split_scan_skip.
  rewrite length_app. simpl. lia.
Qed.

Lemma extract_from_contents (i : nat) (sections : list str) :
  map clause_content (extract_from i sections)
  = filter (fun s => 50 <? List.length s) (map strip sections).
Proof.
  revert i; induction sections as [|s l IH]; intros i; simpl.
  - reflexivity.
  - destruct (50 <? List.length (strip s)); simpl; now rewrite IH.
Qed.

Lemma extract_from_ids (i : nat) (sections : list str) :
  map clause_id (extract_from i sections)
  = map id_of_index (retained_indices i sections).
Proof.
  revert i; induction sections as [|s l IH]; intros i; simpl.
  - reflexivity.
  - unfold retained. destruct (50 <? List.length (strip s)); simpl;
      now rewrite IH.
Qed.

Lemma extract_from_long (i : nat) (sections : list str) :
  Forall (fun c => 50 < clause_length c
                   /\ clause_length c = List.length (clause_content c))
         (extract_from i sections).
Proof.
  revert i; induction sections as [|s l IH]; intros i; simpl.
  - constructor.
  - destruct (50 <? List.length (strip s)) eqn:E; [|apply IH].
    constructor; [|apply IH]. simpl. apply Nat.ltb_lt in E. now split.
Qed.

(** The kept positions increase, start at [i] or later, and the [k]-th is at
    least [i + k]: it is [i + k] only when nothing before it was dropped. *)
Lemma retained_indices_bounds (i : nat) (sections : list str) :
  StronglySorted lt (retained_indices i sections)
  /\ Forall (fun j => i <= j < i + List.length sections)
            (retained_indices i sections).
Proof.
  revert i; induction sections as [|s l IH]; intros i; simpl.
  - split; constructor.
  - destruct (IH (S i)) as [Hs Hb].
    assert (Hb' : Forall (fun j => i <= j < i + S (List.length l))
                         (retained_indices (S i) l)).
    { eapply Forall_impl; [|exact Hb]. simpl. intros; lia. }
    destruct (retained s); [|now split].
    split.
    + constructor; [exact Hs|].
      eapply Forall_impl; [|exact Hb]. simpl. intros; lia.
    + constructor; [lia | exact Hb'].
Qed.

Lemma str_of_nat_inj (i j : nat) : str_of_nat i = str_of_nat j -> i = j.
Proof.
  unfold str_of_nat, L. intros H.
  assert (H' : DecimalString.NilEmpty.string_of_uint (Nat.to_uint i)
               = DecimalString.NilEmpty.string_of_uint (Nat.to_uint j)).
  { rewrite <- (string_of_list_ascii_of_string
                  (DecimalString.NilEmpty.string_of_uint (Nat.to_uint i))),
            <- (string_of_list_ascii_of_string
                  (DecimalString.NilEmpty.string_of_uint (Nat.to_uint j))).
    now rewrite H. }
  apply (f_equal DecimalString.NilEmpty.uint_of_string) in H'.
  rewrite !DecimalString.NilEmpty.usu in H'.
  injection H' as H'. now apply DecimalNat.Unsigned.to_uint_inj.
Qed.

Lemma id_of_index_inj (i j : nat) : id_of_index i = id_of_index j -> i = j.
Proof.
  unfold id_of_index. intros H. apply app_inv_head in H.
  now apply str_of_nat_inj.
Qed.

Lemma sorted_lt_NoDup (l : list nat) : StronglySorted lt l -> NoDup l.
Proof.
  induction 1 as [|x l Hs IH Hx]; constructor; trivial.
  intros Hin. rewrite Forall_forall in Hx. specialize (Hx _ Hin). lia.
Qed.

(** C4, as the code has it: the text is cut at blank-line boundaries; the
    clauses are the sections whose trimmed length exceeds 50, trimmed, in
    document order, and no clause is 50 characters or shorter; the clause
    made from the section at position [i] among all the sections, dropped
    ones included, has the id [clause_i], so the ids increase and are
    distinct. *)
Theorem extract_clauses_by_section_index (text : str) :
  let sections := re_split_blank_lines text in
  (forall a ws b, text = a ++ newline :: ws ++ newline :: b ->
     no_boundary_in a (newline :: ws ++ newline :: b) ->
     forallb is_space ws = true -> no_newline_ahead b ->
     sections = a :: re_split_blank_lines b) /\
  (no_boundary_in text [] -> sections = [text]) /\
  map clause_content (_extract_clauses text)
    = filter (fun s => 50 <? List.length s) (map strip sections) /\
  Forall (fun c => 50 < clause_length c
                   /\ clause_length c = List.length (clause_content c))
         (_extract_clauses text) /\
  map clause_id (_extract_clauses text)
    = map id_of_index (retained_indices 0 sections) /\
  StronglySorted lt (retained_indices 0 sections) /\
  NoDup (map clause_id (_extract_clauses text)).
Proof.
  intros sections. unfold _extract_clauses. fold sections.
  split; [intros a ws b -> Ha Hws Hb; now apply split_at_boundary|].
  split; [apply split_no_boundary|].
  split; [apply extract_from_contents|].
  split; [apply extract_from_long|].
  split; [apply extract_from_ids|].
  destruct (retained_indices_bounds 0 sections) as [Hs _].
  split; [exact Hs|].
  rewrite extract_from_ids.
  apply Finite.Injective_map_NoDup; [|now apply sorted_lt_NoDup].
  intros i j. apply id_of_index_inj.
Qed.

Lemma extract_clauses_by_section_index_witness :
  re_split_blank_lines two_line_text = [two_line_header; section_b] /\
  map clause_id (_extract_clauses two_line_text) = [id_of_index 1].
Proof.
  destruct (extract_clauses_by_section_index two_line_text)
    as (Hcut & _ & _ & _ & Hids & _).
  split.
  - rewrite (Hcut two_line_header (L " ") section_b); try reflexivity.
    repeat (apply no_boundary_cons;
            [intros E; try discriminate E; reflexivity|]).
    apply no_boundary_nil.
  - rewrite Hids. reflexivity.
Defined.

(** The one clause of [header_text] is the first retained section, and its
    id is [clause_1], not [clause_0]. *)
Lemma extract_clauses_sequential_ids_counterexample :
  exists c, nth_error (_extract_clauses header_text) 0 = Some c
            /\ clause_content c = section_b
            /\ clause_id c = L "clause_1"
            /\ clause_id c <> id_of_index 0.
Proof.
  eexists. split; [reflexivity|]. split; [reflexivity|].
  split; [reflexivity|]. discriminate.
Qed.

End SegmentFacts.

(* ================================================================== *)
(** * Finding and slicing *)
(* ================================================================== *)

Lemma slice_nat (t : str) (i j : nat) :
  i <= j <= List.length t ->
  slice t (Z.of_nat i) (Z.of_nat j) = firstn (j - i) (skipn i t).
Proof.
  intros H. unfold slice, clamp.
  destruct (Z.ltb_spec (Z.of_nat i) 0); [lia|].
  destruct (Z.ltb_spec (Z.of_nat j) 0); [lia|].
  rewrite !Z.min_l by lia.
  rewrite <- Nat2Z.inj_sub, !Nat2Z.id by lia. reflexivity.
Qed.

(** The slice that starts after [a] and spans [b]. *)
Lemma slice_middle (a b c : str) :
  slice (a ++ b ++ c) (Z.of_nat (List.length a))
        (Z.of_nat (List.length a + List.length b)) = b.
Proof.
  rewrite slice_nat by (rewrite !length_app; lia).
  rewrite skipn_app, skipn_all, Nat.sub_diag. simpl.
  replace (List.length a + List.length b - List.length a)
    with (List.length b + 0) by lia.
  now rewrite firstn_app_2, app_nil_r.
Qed.

Lemma find_after (c : ascii) (p a rest : str) :
  ~ In c a ->
  find (c :: p) (a ++ (c :: p) ++ rest) = Z.of_nat (List.length a).
Proof.
  intros H. unfold find. rewrite index_of_after by assumption.
  rewrite (index_of_unfold (c :: p)), startswith_app. simpl.
  now rewrite Nat.add_0_r.
Qed.



Lemma contains_false (p t : str) : ~ occurs p t -> contains p t = false.
Proof.
  intros H. destruct (contains p t) eqn:E; trivial.
  now apply contains_spec in E.
Qed.

Lemma contains_true (p a b : str) : contains p (a ++ p ++ b) = true.
Proof. apply contains_spec. now exists a, b. Qed.



(* ================================================================== *)
(** * Decision synthesis *)
(* ================================================================== *)

Module EngineFacts.
Import DocumentProcessor SemanticSearch DecisionEngine.

(** ** The text handed to the JSON reader *)

Lemma candidate_fenced (pre body post : str) :
  ~ In backtick pre -> ~ In backtick body ->
  json_candidate (pre ++ fence_json ++ body ++ fence ++ post)
  = Some (strip body).
Proof.
  intros Hpre Hbody. unfold json_candidate.
  change (L "```json") with fence_json. change (L "```") with fence.
  rewrite contains_true.
  assert (Hfind : find fence_json
                    (pre ++ fence_json ++ body ++ fence ++ post)
                  = Z.of_nat (List.length pre)).
  { exact (find_after backtick (L "``json") pre
             (body ++ fence ++ post) Hpre). }
  rewrite Hfind.
  set (response := pre ++ _).
  assert (Hresp : response = (pre ++ fence_json) ++ body ++ fence ++ post).
  { unfold response. now rewrite <- app_assoc. }
  assert (Hstart : (Z.of_nat (List.length pre) + 7)%Z
                   = Z.of_nat (List.length (pre ++ fence_json))).
  { rewrite length_app. change (List.length fence_json) with 7. lia. }
  rewrite Hstart.
  assert (Hend : find_from fence response
                   (Z.of_nat (List.length (pre ++ fence_json)))
                 = Z.of_nat (List.length (pre ++ fence_json)
                             + List.length body)).
  { unfold find_from.
    destruct (Z.ltb_spec (Z.of_nat (List.length response))
                (Z.of_nat (List.length (pre ++ fence_json)))) as [Hlt|_].
    - rewrite Hresp, (length_app (pre ++ fence_json)) in Hlt. lia.
    - rewrite Nat2Z.id, Hresp, skipn_app, skipn_all, Nat.sub_diag.
      rewrite skipn_O, app_nil_l.
      assert (Hi : index_of fence (body ++ fence ++ post)
                   = Some (List.length body + 0)).
      { change fence with (backtick :: L "``").
        rewrite index_of_after by assumption.
        now rewrite (index_of_unfold (backtick :: L "``")), startswith_app. }
      rewrite Hi. lia. }
  rewrite Hend, Hresp, slice_middle. reflexivity.
Qed.




(** ** The fenced branch, in general *)






Section WithProvider.
Variable W : Type.
Variable json_loads : str -> result pyval.
Variable chat_completions_create : str -> M W str.

(** The three outcomes of [evaluate_decision]. *)
Lemma evaluate_empty (question : str) (w : W) :
  evaluate_decision json_loads chat_completions_create question [] w
  = (Ok no_information, w).
Proof. reflexivity. Qed.

Lemma evaluate_failure (question : str) (clauses : list RankedClause)
      (w w' : W) (e : exn) :
  clauses <> [] ->
  chat_completions_create (_build_prompt question (_build_context clauses)) w
    = (Err e, w') ->
  evaluate_decision json_loads chat_completions_create question clauses w
  = (Ok (error_decision
           (Raise Exception (L "GPT-4 evaluation failed: " ++ exn_str e))
           clauses), w').
Proof.
  intros Hne Hcc. destruct clauses as [|c cl]; [congruence|].
  unfold evaluate_decision, try_except, evaluate_body, bind,
    _get_gpt_response, try_except, raise.
  now rewrite Hcc.
Qed.

Lemma evaluate_response (question : str) (clauses : list RankedClause)
      (w w' : W) (response : str) :
  clauses <> [] ->
  chat_completions_create (_build_prompt question (_build_context clauses)) w
    = (Ok response, w') ->
  evaluate_decision json_loads chat_completions_create question clauses w
  = (Ok (decision_from (_parse_response json_loads response) clauses), w').
Proof.
  intros Hne Hcc. destruct clauses as [|c cl]; [congruence|].
  unfold evaluate_decision, try_except, evaluate_body, bind,
    _get_gpt_response, try_except, lift, ret, decision_from.
  rewrite Hcc.
  destruct (_parse_response json_loads response); reflexivity.
Qed.

(** Every call returns a decision; which one is told by the three lemmas
    above. *)
Lemma evaluate_cases (question : str) (clauses : list RankedClause) (w : W) :
  (clauses = []
   /\ evaluate_decision json_loads chat_completions_create question clauses w
      = (Ok no_information, w))
  \/ (clauses <> [] /\ exists e w',
        chat_completions_create
          (_build_prompt question (_build_context clauses)) w = (Err e, w')
        /\ evaluate_decision json_loads chat_completions_create
             question clauses w
           = (Ok (error_decision
                    (Raise Exception
                       (L "GPT-4 evaluation failed: " ++ exn_str e))
                    clauses), w'))
  \/ (clauses <> [] /\ exists response w',
        chat_completions_create
          (_build_prompt question (_build_context clauses)) w
          = (Ok response, w')
        /\ evaluate_decision json_loads chat_completions_create
             question clauses w
           = (Ok (decision_from (_parse_response json_loads response)
                    clauses), w')).
Proof.
  destruct clauses as [|c cl]; [left; now split|right].
  assert (Hne : c :: cl <> []) by discriminate.
  destruct (chat_completions_create
              (_build_prompt question (_build_context (c :: cl))) w)
    as [[response|e] w'] eqn:E.
  - right. split; trivial. exists response, w'. split; trivial.
    now apply evaluate_response.
  - left. split; trivial. exists e, w'. split; trivial.
    now apply evaluate_failure.
Qed.

Lemma decision_from_clauses (parsed : pyval) (clauses : list RankedClause) :
  clauses <> [] ->
  relevant_clauses (decision_from parsed clauses) = firstn 3 clauses.
Proof.
  intros Hne. destruct clauses as [|c cl]; [congruence|].
  destruct parsed; reflexivity.
Qed.

Lemma decision_from_dict (items : list (str * pyval))
      (clauses : list RankedClause) :
  decision_from (PDict items) clauses
  = {| answer := get_or items "answer"
                   (PStr (L "Unable to determine answer."));
       rationale := get_or items "rationale"
                   (PStr (L "Insufficient information to provide rationale."));
       relevant_clauses := firstn 3 clauses;
       confidence := get_or items "confidence" (PFloat (1 # 2)) |}.
Proof. reflexivity. Qed.

Lemma decision_from_fallback (response text : str) (c : Q)
      (clauses : list RankedClause) :
  decision_from (fallback response text c) clauses
  = {| answer := PStr response; rationale := PStr text;
       relevant_clauses := firstn 3 clauses; confidence := PFloat c |}.
Proof. reflexivity. Qed.

Lemma firstn_min_length {A} (n : nat) (l : list A) :
  firstn (Nat.min n (List.length l)) l = firstn n l.
Proof.
  destruct (Nat.le_ge_cases n (List.length l)) as [H|H].
  - now rewrite Nat.min_l.
  - rewrite Nat.min_r by assumption.
    now rewrite firstn_all, firstn_all2.
Qed.

Lemma unit_interval_float (q : Q) :
  (0 <= q)%Q -> (q <= 1)%Q -> in_unit_interval (PFloat q).
Proof. now split. Qed.


(** C7: on every outcome the decision carries the first [min 3 n] of the [n]
    clauses given, in their order; there are at most three. *)
Theorem supporting_clauses_first_three (question : str)
    (clauses : list RankedClause) (w : W) :
  exists d w',
    evaluate_decision json_loads chat_completions_create question clauses w
    = (Ok d, w')
    /\ relevant_clauses d = firstn (Nat.min 3 (List.length clauses)) clauses
    /\ List.length (relevant_clauses d) = Nat.min 3 (List.length clauses)
    /\ List.length (relevant_clauses d) <= 3.
Proof.
  assert (Hd : exists d w',
    evaluate_decision json_loads chat_completions_create question clauses w
    = (Ok d, w') /\ relevant_clauses d = firstn 3 clauses).
  { destruct (evaluate_cases question clauses w)
      as [[-> H]|[[Hne (e & w' & _ & H)]|[Hne (r & w' & _ & H)]]];
      rewrite H; do 2 eexists; (split; [reflexivity|]).
    - reflexivity.
    - destruct clauses; [congruence | reflexivity].
    - now apply decision_from_clauses. }
  destruct Hd as (d & w' & H & Hc). exists d, w'.
  rewrite Hc, firstn_min_length, length_firstn.
  repeat split; trivial. apply Nat.le_min_l.
Qed.

(** C9, as the code has it: the confidence is fixed by the path.  It is 0.0
    without clauses, when the completion call fails and when the JSON text
    is not an object; 0.5 when no JSON text is found and when the object has
    no entry "confidence"; 0.3 when the reader rejects the text; and when
    the object has an entry "confidence" the decision carries the value of
    that entry unchanged, whatever its type or range.  The three constants
    lie between 0 and 1. *)
Theorem confidence_by_path (question : str) (clauses : list RankedClause)
    (w : W) :
  (clauses = [] ->
   exists d,
     evaluate_decision json_loads chat_completions_create question clauses w
     = (Ok d, w)
     /\ confidence d = PFloat 0) /\
  (forall e w', clauses <> [] ->
     chat_completions_create
       (_build_prompt question (_build_context clauses)) w = (Err e, w') ->
     exists d,
       evaluate_decision json_loads chat_completions_create question clauses w
       = (Ok d, w')
       /\ confidence d = PFloat 0) /\
  (forall response w', clauses <> [] ->
     chat_completions_create
       (_build_prompt question (_build_context clauses)) w
       = (Ok response, w') ->
     exists d,
       evaluate_decision json_loads chat_completions_create question clauses w
       = (Ok d, w')
       /\ (json_candidate response = None -> confidence d = PFloat (1 # 2))
       /\ (forall s e,
             json_candidate response = Some s -> json_loads s = Err e ->
             confidence d = PFloat (3 # 10))
       /\ (forall s items v,
             json_candidate response = Some s ->
             json_loads s = Ok (PDict items) ->
             dict_lookup items (L "confidence") = Some v ->
             confidence d = v)
       /\ (forall s items,
             json_candidate response = Some s ->
             json_loads s = Ok (PDict items) ->
             dict_lookup items (L "confidence") = None ->
             confidence d = PFloat (1 # 2))
       /\ (forall s v,
             json_candidate response = Some s -> json_loads s = Ok v ->
             (forall items, v <> PDict items) ->
             confidence d = PFloat 0)) /\
  in_unit_interval (PFloat 0)
  /\ in_unit_interval (PFloat (3 # 10))
  /\ in_unit_interval (PFloat (1 # 2)).
Proof.
  split; [|split; [|split]].
  - intros ->. exists no_information. now split.
  - intros e w' Hne Hcc. eexists.
    rewrite (evaluate_failure question clauses w w' e Hne Hcc).
    split; [reflexivity|]. now destruct clauses.
  - intros response w' Hne Hcc. eexists.
    rewrite (evaluate_response question clauses w w' response Hne Hcc).
    split; [reflexivity|]. unfold _parse_response.
    split; [intros Hs; now rewrite Hs|].
    split.
    { intros s e Hs Hl. rewrite Hs, Hl.
      now destruct (exn_class_eqb (exn_cls e) JSONDecodeError). }
    split.
    { intros s items v Hs Hl Hv. rewrite Hs, Hl, decision_from_dict.
      unfold get_or. cbn [confidence]. now rewrite Hv. }
    split.
    { intros s items Hs Hl Hv. rewrite Hs, Hl, decision_from_dict.
      unfold get_or. cbn [confidence]. now rewrite Hv. }
    intros s v Hs Hl Hv. rewrite Hs, Hl.
    destruct clauses as [|c cl]; [congruence|].
    destruct v; try reflexivity. exfalso. now apply (Hv d).
  - repeat split; discriminate.
Qed.


End WithProvider.


(** ** The theorems on examples, with the reference JSON reader *)




Lemma confidence_by_path_witness :
  four_ranked <> [] /\
  exists d,
    evaluate_decision JsonRef.json_loads (answering confidence_seven)
      knee_question four_ranked tt = (Ok d, tt)
    /\ confidence d = PInt 7.
Proof.
  assert (Hne : four_ranked <> []) by discriminate.
  split; [exact Hne|].
  destruct (proj1 (proj2 (proj2
              (confidence_by_path unit JsonRef.json_loads
                 (answering confidence_seven) knee_question four_ranked tt)))
              confidence_seven tt Hne eq_refl)
    as (d & Hd & _ & _ & Hv & _).
  exists d. split; [exact Hd|].
  apply (Hv confidence_seven
            [(L "answer", PStr (L "yes")); (L "confidence", PInt 7)]
            (PInt 7)); vm_compute; reflexivity.
Defined.

(** The model answers a confidence of 7, then the word "high": the decision
    carries them as they are. *)
Lemma confidence_out_of_range_counterexample :
  (exists d,
     evaluate_decision JsonRef.json_loads (answering confidence_seven)
       knee_question four_ranked tt = (Ok d, tt)
     /\ confidence d = PInt 7 /\ ~ in_unit_interval (confidence d)) /\
  (exists d,
     evaluate_decision JsonRef.json_loads (answering confidence_high)
       knee_question four_ranked tt = (Ok d, tt)
     /\ confidence d = PStr (L "high") /\ ~ in_unit_interval (confidence d)).
Proof.
  split; eexists; (split; [vm_compute; reflexivity|]); split;
    try reflexivity; simpl.
  - lia.
  - tauto.
Qed.

End EngineFacts.

(* ================================================================== *)
(** * Ranking *)
(* ================================================================== *)

Module SearchFacts.
Import DocumentProcessor SemanticSearch.

Lemma Qgtb_true (a b : Q) : Qgtb a b = true <-> (b < a)%Q.
Proof.
  unfold Qgtb. rewrite negb_true_iff. split.
  - intros H. apply Qnot_le_lt. intros Hle.
    apply Qle_bool_iff in Hle. congruence.
  - intros H. destruct (Qle_bool a b) eqn:E; trivial.
    apply Qle_bool_iff in E. exfalso. exact (Qlt_not_le _ _ H E).
Qed.


(** ** With [faiss] unbound *)

Lemma np_array_one (v : vec) : np_array [v] = Ok [v].
Proof. reflexivity. Qed.

Lemma find_similar_unbound (q : vec) (embs : list vec) (clauses : list Clause) :
  find_similar_clauses_with None q embs clauses = [].
Proof.
  unfold find_similar_clauses_with, find_similar_body.
  destruct embs as [|e embs]; [reflexivity|].
  rewrite np_array_one. cbn [rbind].
  destruct (np_array (e :: embs)); reflexivity.
Qed.

Lemma find_similar_no_vectors (fb : option Faiss) (q : vec)
      (clauses : list Clause) :
  find_similar_clauses_with fb q [] clauses = [].
Proof. reflexivity. Qed.

(** ** The loop over the hits *)

Lemma collect_made_from (clauses : list Clause) (hits : list (Q * Z)) :
  forall i r, collect i hits clauses = Ok r ->
  Forall2 (made_from clauses) r (filter above hits).
Proof.
  induction hits as [|[s idx] hits IH]; intros i r H; simpl in H.
  - injection H as <-. constructor.
  - cbn [filter]. unfold above at 1. cbn [fst].
    destruct (Qgtb s threshold); [|now apply (IH (S i))].
    destruct (py_index clauses idx) as [c|] eqn:Hc; [|discriminate].
    cbn [rbind] in H.
    destruct (collect (S i) hits clauses) as [tl|] eqn:Ht; [|discriminate].
    cbn [rbind] in H. injection H as <-.
    constructor; [now split | now apply (IH (S i))].
Qed.




Lemma collect_length (clauses : list Clause) (hits : list (Q * Z)) :
  forall i r, collect i hits clauses = Ok r ->
  List.length r <= List.length hits.
Proof.
  intros i r H. apply collect_made_from in H.
  rewrite (Forall2_length H). apply filter_length_le.
Qed.



(** ** The final sort *)


Lemma insert_desc_perm (x : RankedClause) (l : list RankedClause) :
  Permutation (x :: l) (insert_desc x l).
Proof.
  induction l as [|y l IH]; simpl; [reflexivity|].
  destruct (Qgtb _ _); [|reflexivity].
  rewrite perm_swap. now constructor.
Qed.

Lemma sorted_desc_perm (l : list RankedClause) :
  Permutation l (sorted_desc l).
Proof.
  induction l as [|x l IH]; simpl; [constructor|].
  rewrite <- insert_desc_perm. now constructor.
Qed.




(** ** The whole function *)

Lemma np_array_ok (rows rows' : list vec) :
  np_array rows = Ok rows' -> rows' = rows.
Proof.
  unfold np_array. destruct rows as [|r rs]; [congruence|].
  destruct (forallb (fun r' => List.length r' =? List.length r) rs);
    congruence.
Qed.

(** Either nothing is returned, or the index answered [hits], the loop made
    [r0] of them and the result is [r0] sorted. *)
Lemma find_similar_cases (fb : option Faiss) (q : vec) (embs : list vec)
      (clauses : list Clause) :
  find_similar_clauses_with fb q embs clauses = [] \/
  exists faiss hits r0,
    fb = Some faiss
    /\ flat_ip_search faiss (List.length q) embs q
         (Nat.min 5 (List.length clauses)) = Ok hits
    /\ collect 0 hits clauses = Ok r0
    /\ find_similar_clauses_with fb q embs clauses = sorted_desc r0.
Proof.
  destruct fb as [faiss|]; [|left; apply find_similar_unbound].
  unfold find_similar_clauses_with, find_similar_body.
  destruct embs as [|e embs]; [now left|].
  rewrite np_array_one. cbn [rbind].
  destruct (np_array (e :: embs)) as [rows|] eqn:Hrows; [|now left].
  apply np_array_ok in Hrows. subst rows. cbn [rbind].
  destruct (flat_ip_search faiss _ _ _ _) as [hits|] eqn:Hs; [|now left].
  cbn [rbind].
  destruct (collect 0 hits clauses) as [r0|] eqn:Hc; [|now left].
  right. exists faiss, hits, r0. auto.
Qed.

(** With [faiss] bound to an index that returns [k] hits, the function keeps
    only scores above 0.3 and returns at most [min 5 n] of the [n] clauses. *)
Lemma ranking_threshold_and_cap (fb : option Faiss) (q : vec)
      (embs : list vec) (clauses : list Clause) :
  (forall faiss hits, fb = Some faiss ->
     flat_ip_search faiss (List.length q) embs q
       (Nat.min 5 (List.length clauses)) = Ok hits ->
     List.length hits = Nat.min 5 (List.length clauses)) ->
  Forall (fun rc => (threshold < similarity_score rc)%Q)
         (find_similar_clauses_with fb q embs clauses)
  /\ List.length (find_similar_clauses_with fb q embs clauses)
     <= Nat.min 5 (List.length clauses).
Proof.
  intros Hk.
  destruct (find_similar_cases fb q embs clauses)
    as [->|(faiss & hits & r0 & Hfb & Hs & Hc & ->)].
  - split; [constructor | apply Nat.le_0_l].
  - split.
    + eapply Permutation_Forall; [apply sorted_desc_perm|].
      pose proof (collect_made_from clauses hits 0 r0 Hc) as Hm.
      assert (Hab : Forall (fun h => above h = true) (filter above hits)).
      { apply Forall_forall. intros h Hh. now apply filter_In in Hh. }
      clear Hc. induction Hm as [|rc h r hs [Hsc _] _ IH]; constructor.
      * inversion Hab; subst. rewrite Hsc. now apply Qgtb_true.
      * apply IH. now inversion Hab.
    + rewrite <- (Permutation_length (sorted_desc_perm r0)).
      rewrite <- (Hk faiss hits Hfb Hs). eapply collect_length; eassumption.
Qed.

(** C2 against the code: the module never binds [faiss], reading the name
    raises, the handler returns the empty list: no clause is ever scored or
    returned.  With the name bound to a flat inner-product index the one
    clause of the example, of similarity 1, is returned with rank 1. *)
Theorem find_similar_clauses_returns_nothing :
  (forall q embs clauses, _find_similar_clauses q embs clauses = []) /\
  _find_similar_clauses [1%Q] [[1%Q]] [c0] = [] /\
  find_similar_clauses_with (Some reference_faiss) [1%Q] [[1%Q]] [c0]
  = [mkRanked c0 1 1].
Proof.
  split; [|split].
  - intros q embs clauses. apply find_similar_unbound.
  - reflexivity.
  - reflexivity.
Qed.

(** ** Ranks and order, whatever the index returns *)









End SearchFacts.

(* ================================================================== *)
(** * The question loop *)
(* ================================================================== *)

Module MainFacts.
Import DocumentProcessor SemanticSearch DecisionEngine Main.

Section WithService.
Variable W : Type.
Variable json_loads : str -> result pyval.
Variable embeddings_create : str -> M W vec.
Variable chat_completions_create : str -> M W str.
Variable fetch_text : str -> M W str.

Lemma search_total (fb : option Faiss) (question : str)
      (clauses : list Clause) (w : W) :
  exists r w',
    search_clauses_with embeddings_create fb question clauses w = (Ok r, w').
Proof.
  unfold search_clauses_with, try_except.
  match goal with
  | |- context [match ?body w with _ => _ end] =>
      destruct (body w) as [[r|e] w']
  end; unfold ret; eauto.
Qed.



Lemma evaluate_total (question : str) (relevant : list RankedClause) (w : W) :
  exists d w',
    evaluate_decision json_loads chat_completions_create question relevant w
    = (Ok d, w').
Proof.
  destruct (EngineFacts.evaluate_cases W json_loads chat_completions_create
              question relevant w)
    as [[_ H]|[[_ (e & w' & _ & H)]|[_ (r & w' & _ & H)]]];
    rewrite H; eauto.
Qed.

Lemma answer_questions_cons (fb : option Faiss) (clauses : list Clause)
      (question : str) (rest : list str) (w w1 w2 w3 : W)
      (relevant : list RankedClause) (d : Decision)
      (answers : list AnswerEntry) :
  search_clauses_with embeddings_create fb question clauses w
    = (Ok relevant, w1) ->
  evaluate_decision json_loads chat_completions_create question relevant w1
    = (Ok d, w2) ->
  answer_questions json_loads embeddings_create chat_completions_create
    fb clauses rest w2 = (Ok answers, w3) ->
  answer_questions json_loads embeddings_create chat_completions_create
    fb clauses (question :: rest) w
  = (Ok ({| entry_question := question;
            entry_answer := answer d;
            entry_rationale := rationale d;
            entry_relevant_clauses := relevant_clauses d;
            entry_confidence := confidence d |} :: answers), w3).
Proof.
  intros Hs He Ha. cbn [answer_questions]. unfold bind at 1. rewrite Hs.
  unfold bind at 1. rewrite He. unfold bind at 1. rewrite Ha. reflexivity.
Qed.

(** The loop answers every question, in order, whatever the endpoints do. *)
Lemma answer_questions_total (fb : option Faiss) (clauses : list Clause)
      (questions : list str) :
  forall w, exists answers w',
    answer_questions json_loads embeddings_create chat_completions_create
      fb clauses questions w = (Ok answers, w')
    /\ map entry_question answers = questions.
Proof.
  induction questions as [|question rest IH]; intros w.
  - exists [], w. now split.
  - destruct (search_total fb question clauses w) as (relevant & w1 & Hs).
    destruct (evaluate_total question relevant w1) as (d & w2 & He).
    destruct (IH w2) as (answers & w3 & Ha & Hq).
    eexists. exists w3.
    rewrite (answer_questions_cons _ _ _ _ _ _ _ _ _ _ _ Hs He Ha).
    split; [reflexivity|]. simpl. now rewrite Hq.
Qed.



(** Once the document is read, [run_query] returns one entry per question. *)
Lemma run_query_answers_all (fb : option Faiss) (documents : str)
      (questions : list str) (w w0 : W) (text : str) :
  fetch_text documents w = (Ok text, w0) ->
  exists answers w',
    run_query_with json_loads embeddings_create chat_completions_create
      fetch_text fb documents questions w = (Ok answers, w')
    /\ map entry_question answers = questions.
Proof.
  intros Hf.
  destruct (answer_questions_total fb (_extract_clauses text) questions w0)
    as (answers & w' & Ha & Hq).
  exists answers, w'. split; [|exact Hq].
  unfold run_query_with, try_except, bind, process_document, try_except,
    bind, ret.
  now rewrite Hf, Ha.
Qed.

End WithService.


End MainFacts.

(* ================================================================== *)
(** * More on segmentation *)
(* ================================================================== *)

Module SegmentMore.
Import DocumentProcessor.

Lemma sep_len_prefix_none (a x : str) :
  sep_len (a ++ x) = None -> sep_len a = None.
Proof.
  unfold sep_len. induction a as [|c a IH]; simpl; [reflexivity|].
  destruct (is_space c); [|reflexivity].
  rewrite (SegmentFacts.last_newline_shift (a ++ x)),
          (SegmentFacts.last_newline_shift a).
  destruct (last_newline_in_run (a ++ x) 0 None); [discriminate|].
  intros H. now rewrite IH.
Qed.

Lemma snoc_split (l a1 a2 : str) (c x : ascii) :
  l ++ [c] = a1 ++ x :: a2 ->
  (a2 = [] /\ c = x /\ l = a1)
  \/ (exists a2', a2 = a2' ++ [c] /\ l = a1 ++ x :: a2').
Proof.
  intros H. destruct (exists_last (l := x :: a2)) as (m & y & Hm);
    [discriminate|].
  destruct a2 as [|z a2].
  - left. change (a1 ++ [x]) with (a1 ++ [x]) in H.
    apply app_inj_tail in H as [-> ->]. auto.
  - right. destruct (exists_last (l := z :: a2)) as (a2' & y' & Ha);
      [discriminate|].
    rewrite Ha in H.
    change (a1 ++ x :: a2' ++ [y']) with (a1 ++ (x :: a2') ++ [y']) in H.
    rewrite app_assoc in H. apply app_inj_tail in H as [-> ->].
    exists a2'. now split.
Qed.

(** While a section is read, no separator starts inside what has been
    read. *)
Lemma split_scan_free (text : str) :
  forall k cur,
    (k = 0 -> no_boundary_in (rev cur) text) ->
    (k <> 0 -> cur = []) ->
    Forall (fun s => no_boundary_in s []) (split_scan k cur text).
Proof.
  induction text as [|c rest IH]; intros k cur H0 Hk; simpl.
  - constructor; [|constructor].
    destruct k as [|k].
    + exact (H0 eq_refl).
    + rewrite (Hk (Nat.neq_succ_0 k)). apply SegmentFacts.no_boundary_nil.
  - destruct k as [|k].
    + specialize (H0 eq_refl).
      assert (Hpush : sep_len rest = None \/ c <> newline ->
                      no_boundary_in (rev (c :: cur)) rest).
      { intros Hc a1 a2 Hs. simpl in Hs.
        apply snoc_split in Hs as [(-> & -> & _)|(a2' & -> & Hs)].
        - destruct Hc as [Hc|Hc]; [exact Hc | congruence].
        - rewrite <- app_assoc. exact (H0 a1 a2' Hs). }
      destruct (Ascii.eqb c newline) eqn:Hc.
      * destruct (sep_len rest) as [m|] eqn:Hm.
        -- constructor.
           ++ intros a1 a2 Hs. rewrite app_nil_r.
              apply (sep_len_prefix_none a2 (c :: rest)). exact (H0 a1 a2 Hs).
           ++ apply IH; [|reflexivity].
              intros _. apply SegmentFacts.no_boundary_nil.
        -- apply IH; [|congruence]. intros _. apply Hpush. now left.
      * apply IH; [|congruence]. intros _. apply Hpush. right.
        now apply Ascii.eqb_neq.
    + rewrite (Hk (Nat.neq_succ_0 k)). apply IH; [|reflexivity].
      intros _. apply SegmentFacts.no_boundary_nil.
Qed.

(** X1: No section that [re.split] returns holds a blank-line boundary, and
    there is always at least one section. *)
Theorem sections_hold_no_boundary (text : str) :
  Forall (fun s => no_boundary_in s []) (re_split_blank_lines text)
  /\ re_split_blank_lines text <> [].
Proof.
  split.
  - apply split_scan_free; [|congruence].
    intros _. apply SegmentFacts.no_boundary_nil.
  - unfold re_split_blank_lines. generalize 0 at 1, (@nil ascii).
    induction text as [|c rest IH]; intros k cur; simpl; [discriminate|].
    destruct k; [|apply IH].
    destruct (Ascii.eqb c newline); [|apply IH].
    destruct (sep_len rest); [discriminate | apply IH].
Qed.

Lemma split_scan_total_length (text : str) :
  forall k cur,
    list_sum (map (@List.length ascii) (split_scan k cur text))
    <= List.length cur + List.length text.
Proof.
  induction text as [|c rest IH]; intros k cur; simpl.
  - rewrite length_rev. lia.
  - destruct k as [|k].
    + destruct (Ascii.eqb c newline).
      * destruct (sep_len rest).
        -- simpl. rewrite length_rev. specialize (IH n []). simpl in IH. lia.
        -- specialize (IH 0 (c :: cur)). simpl in IH. lia.
      * specialize (IH 0 (c :: cur)). simpl in IH. lia.
    + specialize (IH k cur). lia.
Qed.

Lemma lstrip_length (s : str) : List.length (lstrip s) <= List.length s.
Proof.
  induction s as [|c s IH]; simpl; [lia|].
  destruct (is_space c); simpl; lia.
Qed.

Lemma strip_length (s : str) : List.length (strip s) <= List.length s.
Proof.
  unfold strip, rstrip. rewrite length_rev.
  etransitivity; [apply lstrip_length|].
  rewrite length_rev. apply lstrip_length.
Qed.

Lemma extract_from_total_length (sections : list str) :
  forall i,
    list_sum (map clause_length (extract_from i sections))
    <= list_sum (map (@List.length ascii) sections)
    /\ 51 * List.length (extract_from i sections)
       <= list_sum (map clause_length (extract_from i sections)).
Proof.
  induction sections as [|s l IH]; intros i; simpl; [lia|].
  destruct (IH (S i)) as [H1 H2].
  pose proof (strip_length s).
  destruct (50 <? List.length (strip s)) eqn:E; simpl; [|lia].
  apply Nat.ltb_lt in E. lia.
Qed.

(** X2: The clauses are disjoint pieces of the text: their lengths add up to at
    most the length of the text, so a text of [n] characters gives at most
    [n / 51] clauses, and none when it has 50 characters or fewer. *)
Theorem clauses_fit_in_text (text : str) :
  list_sum (map clause_length (_extract_clauses text)) <= List.length text
  /\ 51 * List.length (_extract_clauses text) <= List.length text
  /\ (List.length text <= 50 -> _extract_clauses text = []).
Proof.
  unfold _extract_clauses.
  destruct (extract_from_total_length (re_split_blank_lines text) 0)
    as [H1 H2].
  pose proof (split_scan_total_length text 0 []) as H3. simpl in H3.
  fold (re_split_blank_lines text) in H3.
  split; [lia|]. split; [lia|].
  intros Hn. destruct (extract_from 0 (re_split_blank_lines text));
    [reflexivity | simpl List.length in H2; lia].
Qed.

Lemma clauses_fit_in_text_witness :
  List.length (L "Page 3 of 12") <= 50
  /\ _extract_clauses (L "Page 3 of 12") = [].
Proof.
  assert (H : List.length (L "Page 3 of 12") <= 50) by (simpl; lia).
  split; [exact H|].
  exact (proj2 (proj2 (clauses_fit_in_text (L "Page 3 of 12"))) H).
Defined.

End SegmentMore.

(* ================================================================== *)
(** * The stored content and type of a clause *)
(* ================================================================== *)

Module ContentFacts.
Import DocumentProcessor.

Lemma is_space_lower (c : ascii) : is_space (lower_char c) = is_space c.
Proof. destruct c as [[] [] [] [] [] [] [] []]; reflexivity. Qed.

Lemma lower_lstrip (s : str) : lower (lstrip s) = lstrip (lower s).
Proof.
  induction s as [|c s IH]; simpl; [reflexivity|].
  rewrite is_space_lower. now destruct (is_space c).
Qed.

Lemma lower_strip (s : str) : lower (strip s) = strip (lower s).
Proof.
  unfold strip, rstrip, lower.
  rewrite map_rev. fold (lower (lstrip (rev (lstrip s)))).
  rewrite lower_lstrip. unfold lower. rewrite map_rev.
  fold (lower (lstrip s)). now rewrite lower_lstrip.
Qed.

Lemma lstrip_split (s : str) : exists a, s = a ++ lstrip s /\ all_space a.
Proof.
  induction s as [|c s (a & Ha & Hs)]; simpl.
  - exists []. split; [reflexivity | constructor].
  - destruct (is_space c) eqn:E.
    + exists (c :: a). split; [simpl; now rewrite <- Ha | now constructor].
    + exists []. split; [reflexivity | constructor].
Qed.

Lemma strip_split (s : str) :
  exists a b, s = a ++ strip s ++ b /\ all_space a /\ all_space b.
Proof.
  destruct (lstrip_split s) as (a & Ha & Hsa).
  destruct (lstrip_split (rev (lstrip s))) as (b & Hb & Hsb).
  exists a, (rev b). split; [|split; [exact Hsa | now apply Forall_rev]].
  unfold strip, rstrip. rewrite <- rev_app_distr, <- Hb, rev_involutive.
  exact Ha.
Qed.

Lemma lstrip_head (s : str) :
  match lstrip s with c :: _ => is_space c = false | [] => True end.
Proof.
  induction s as [|c s IH]; simpl; [exact I|].
  destruct (is_space c) eqn:E; [exact IH | exact E].
Qed.

Lemma lstrip_fixed (c : ascii) (s : str) :
  is_space c = false -> lstrip (c :: s) = c :: s.
Proof. intros H. simpl. now rewrite H. Qed.

Lemma lstrip_snoc (u : str) (c : ascii) :
  is_space c = false -> lstrip (u ++ [c]) = lstrip u ++ [c].
Proof.
  intros H. induction u as [|x u IH]; simpl; [now rewrite H|].
  destruct (is_space x); [exact IH | reflexivity].
Qed.

Lemma lstrip_idem (s : str) : lstrip (lstrip s) = lstrip s.
Proof.
  pose proof (lstrip_head s) as H.
  destruct (lstrip s) as [|c t]; [reflexivity | now apply lstrip_fixed].
Qed.

(** Trimming what is trimmed changes nothing. *)
Lemma strip_idem (s : str) : strip (strip s) = strip s.
Proof.
  unfold strip at 1.
  assert (Hl : lstrip (strip s) = strip s).
  { unfold strip, rstrip. pose proof (lstrip_head s) as Hh.
    destruct (lstrip s) as [|c t]; [reflexivity|].
    simpl rev. rewrite lstrip_snoc by assumption.
    rewrite rev_app_distr. simpl. now rewrite Hh. }
  rewrite Hl. unfold strip, rstrip.
  now rewrite rev_involutive, lstrip_idem.
Qed.

Lemma occurs_rev (w t : str) : occurs w t -> occurs (rev w) (rev t).
Proof.
  intros (x & y & ->). exists (rev y), (rev x).
  now rewrite !rev_app_distr, app_assoc.
Qed.

Lemma occurs_drop_left (w a t : str) :
  all_space a ->
  match w with c :: _ => is_space c = false | [] => False end ->
  occurs w (a ++ t) -> occurs w t.
Proof.
  intros Ha Hw. induction Ha as [|sp a Hsp _ IH]; [trivial|].
  intros (x & y & H). apply IH.
  destruct x as [|x0 x].
  - destruct w as [|c w]; [contradiction|].
    simpl in H, Hw. injection H as -> _. congruence.
  - simpl in H. injection H as _ H. now exists x, y.
Qed.

Lemma occurs_drop_right (w t b : str) :
  all_space b ->
  match rev w with d :: _ => is_space d = false | [] => False end ->
  occurs w (t ++ b) -> occurs w t.
Proof.
  intros Hb Hw H. apply occurs_rev in H. rewrite rev_app_distr in H.
  apply occurs_drop_left in H; [|now apply Forall_rev | exact Hw].
  apply occurs_rev in H. now rewrite !rev_involutive in H.
Qed.

(** A word with solid ends occurs in a text exactly when it occurs in the
    trimmed text. *)
Lemma occurs_strip (w t : str) :
  solid w = true -> (occurs w (strip t) <-> occurs w t).
Proof.
  intros Hw. destruct (strip_split t) as (a & b & Ht & Ha & Hb).
  assert (H1 : match w with c :: _ => is_space c = false | [] => False end
               /\ match rev w with d :: _ => is_space d = false
                  | [] => False end).
  { unfold solid in Hw. destruct w as [|c w]; [discriminate|].
    destruct (rev (c :: w)) as [|d r]; [discriminate|].
    apply andb_true_iff in Hw as [Hc Hd].
    now rewrite !negb_true_iff in *. }
  destruct H1 as [Hc Hd]. split.
  - intros (x & y & E). rewrite Ht, E. exists (a ++ x), (y ++ b).
    now rewrite <- !app_assoc.
  - intros H. rewrite Ht in H.
    apply occurs_drop_left in H; trivial.
    now apply occurs_drop_right in H.
Qed.

Lemma any_in_strip (words : list str) (s : str) :
  forallb solid words = true ->
  any_in words (lower (strip s)) = any_in words (lower s).
Proof.
  intros Hw. unfold any_in. rewrite lower_strip.
  induction words as [|w words IH]; simpl; [reflexivity|].
  simpl in Hw. apply andb_true_iff in Hw as [Hs Hws].
  rewrite (IH Hws). f_equal.
  destruct (contains w (lower s)) eqn:E.
  - apply contains_spec, (occurs_strip w (lower s) Hs).
    now apply contains_spec.
  - destruct (contains w (strip (lower s))) eqn:E'; trivial.
    apply contains_spec, (occurs_strip w (lower s) Hs), contains_spec in E'.
    congruence.
Qed.

(** Trimming a section does not change its category. *)
Lemma classify_strip (s : str) :
  _classify_clause_type (strip s) = _classify_clause_type s.
Proof.
  unfold _classify_clause_type.
  now rewrite !any_in_strip by reflexivity.
Qed.

Lemma extract_from_consistent (sections : list str) :
  forall i,
    Forall (fun c => clause_type c = _classify_clause_type (clause_content c)
                     /\ strip (clause_content c) = clause_content c)
           (extract_from i sections).
Proof.
  induction sections as [|s l IH]; intros i; simpl; [constructor|].
  destruct (50 <? List.length (strip s)); [|apply IH].
  constructor; [|apply IH]. simpl. split.
  - symmetry. apply classify_strip.
  - apply strip_idem.
Qed.

(** X3: The category stored with a clause is the category of its stored
    content, although the code computes it from the untrimmed section; and
    the stored content has no white space at either end. *)
Theorem clause_type_from_content (text : str) :
  Forall (fun c => clause_type c = _classify_clause_type (clause_content c)
                   /\ strip (clause_content c) = clause_content c)
         (_extract_clauses text).
Proof.
  unfold _extract_clauses.
  apply extract_from_consistent.
Qed.

End ContentFacts.

(* ================================================================== *)
(** * Fetching and reading a document *)
(* ================================================================== *)

Module PipelineFacts.
Import DocumentProcessor DocumentPipeline.

Lemma extension_value (url : str) :
  _get_file_extension url
  = if contains (L ".pdf") (lower url) then L ".pdf"
    else if contains (L ".docx") (lower url) then L ".docx"
    else if contains (L ".doc") (lower url) then L ".doc"
    else L ".txt".
Proof.
  unfold _get_file_extension, supported_extensions, first_extension.
  destruct (contains (L ".pdf") (lower url)); [reflexivity|].
  destruct (contains (L ".docx") (lower url)); [reflexivity|].
  now destruct (contains (L ".doc") (lower url)).
Qed.

Lemma docx_holds_doc (t : str) :
  contains (L ".docx") t = true -> contains (L ".doc") t = true.
Proof.
  intros H. apply contains_spec. apply contains_spec in H.
  apply occurs_trans with (p := L ".docx"); trivial.
  exists [], (L "x"). reflexivity.
Qed.

(** X4: [_get_file_extension] tests the lowercased URL for ".pdf", ".docx" and
    ".doc" in this order, anywhere in the URL, and answers ".txt" when none
    occurs. *)
Theorem file_extension_priority (url : str) :
  (occurs (L ".pdf") (lower url) -> _get_file_extension url = L ".pdf") /\
  (~ occurs (L ".pdf") (lower url) -> occurs (L ".docx") (lower url) ->
     _get_file_extension url = L ".docx") /\
  (~ occurs (L ".pdf") (lower url) -> ~ occurs (L ".docx") (lower url) ->
   occurs (L ".doc") (lower url) -> _get_file_extension url = L ".doc") /\
  (~ occurs (L ".pdf") (lower url) -> ~ occurs (L ".doc") (lower url) ->
     _get_file_extension url = L ".txt").
Proof.
  rewrite extension_value. repeat split; intros.
  - now rewrite (proj2 (contains_spec _ _) H).
  - now rewrite (contains_false _ _ H), (proj2 (contains_spec _ _) H0).
  - now rewrite (contains_false _ _ H), (contains_false _ _ H0),
      (proj2 (contains_spec _ _) H1).
  - rewrite (contains_false _ _ H), (contains_false _ _ H0).
    destruct (contains (L ".docx") (lower url)) eqn:E; [|reflexivity].
    apply docx_holds_doc in E. now rewrite (contains_false _ _ H0) in E.
Qed.

Lemma file_extension_priority_witness :
  occurs (L ".pdf") (lower (L "https://host/Report.PDF?name=a.docx"))
  /\ _get_file_extension (L "https://host/Report.PDF?name=a.docx") = L ".pdf".
Proof.
  assert (H : occurs (L ".pdf")
                (lower (L "https://host/Report.PDF?name=a.docx"))).
  { apply contains_spec. vm_compute. reflexivity. }
  split; [exact H|].
  exact (proj1 (file_extension_priority _) H).
Defined.

Section WithReaders.
Variable W : Type.
Variable session_get : str -> M W nat.
Variable response_read : str -> M W bytes.
Variable pdf_page_texts : bytes -> result (list str).
Variable docx_paragraph_texts : bytes -> result (list str).
Variable decode_utf8_ignore : bytes -> str.

Lemma process_body_fetched (url : str) (w w' : W) (content : bytes) :
  _fetch_document session_get response_read url w = (Ok content, w') ->
  process_body session_get response_read pdf_page_texts
    docx_paragraph_texts decode_utf8_ignore url w
  = (if contains (L ".pdf") (lower url)
     then _process_pdf pdf_page_texts content
     else if contains (L ".doc") (lower url)
     then _process_docx docx_paragraph_texts content
     else _process_text decode_utf8_ignore content, w').
Proof.
  intros Hf. unfold process_body, bind. rewrite Hf, extension_value.
  destruct (contains (L ".pdf") (lower url)); [reflexivity|].
  destruct (contains (L ".docx") (lower url)) eqn:E.
  - now rewrite (docx_holds_doc _ E).
  - now destruct (contains (L ".doc") (lower url)).
Qed.

Lemma process_document_body (url : str) (w : W) :
  process_document session_get response_read pdf_page_texts
    docx_paragraph_texts decode_utf8_ignore url w
  = (reraise "Failed to process document: "
       (fst (process_body session_get response_read pdf_page_texts
               docx_paragraph_texts decode_utf8_ignore url w)),
     snd (process_body session_get response_read pdf_page_texts
            docx_paragraph_texts decode_utf8_ignore url w)).
Proof.
  unfold process_document, try_except, raise, reraise.
  now destruct (process_body _ _ _ _ _ url w) as [[d|e] w'].
Qed.

(** X5: Once the document is fetched, the reader is chosen by what occurs in
    the lowercased URL: the PDF reader when ".pdf" occurs anywhere in it,
    else the DOCX reader when ".doc" occurs anywhere in it, else the text
    reader; the reader's failure is raised again with the prefix "Failed to
    process document: ". *)
Theorem reader_chosen_by_url (url : str) (w w' : W) (content : bytes) :
  _fetch_document session_get response_read url w = (Ok content, w') ->
  (occurs (L ".pdf") (lower url) ->
     process_document session_get response_read pdf_page_texts
       docx_paragraph_texts decode_utf8_ignore url w
     = (reraise "Failed to process document: "
          (_process_pdf pdf_page_texts content), w')) /\
  (~ occurs (L ".pdf") (lower url) -> occurs (L ".doc") (lower url) ->
     process_document session_get response_read pdf_page_texts
       docx_paragraph_texts decode_utf8_ignore url w
     = (reraise "Failed to process document: "
          (_process_docx docx_paragraph_texts content), w')) /\
  (~ occurs (L ".pdf") (lower url) -> ~ occurs (L ".doc") (lower url) ->
     process_document session_get response_read pdf_page_texts
       docx_paragraph_texts decode_utf8_ignore url w
     = (reraise "Failed to process document: "
          (_process_text decode_utf8_ignore content), w')).
Proof.
  intros Hf.
  rewrite process_document_body, (process_body_fetched url w w' content Hf).
  cbn [fst snd]. split; [|split].
  - intros Hp. now rewrite (proj2 (contains_spec _ _) Hp).
  - intros Hp Hd.
    now rewrite (contains_false _ _ Hp), (proj2 (contains_spec _ _) Hd).
  - intros Hp Hd.
    now rewrite (contains_false _ _ Hp), (contains_false _ _ Hd).
Qed.

Lemma fetch_refused (url : str) (w w' : W) (status : nat) :
  session_get url w = (Ok status, w') -> status <> 200 ->
  _fetch_document session_get response_read url w
  = (Err (Raise Exception
            (L "Failed to fetch document: " ++ str_of_nat status)), w').
Proof.
  intros Hs Hn. unfold _fetch_document, bind. rewrite Hs.
  apply Nat.eqb_neq in Hn. now rewrite Hn.
Qed.

(** X6: A status other than 200 ends the request before the body is read: the
    failure carries the status inside the two prefixes. *)
Theorem fetch_status_not_200 (url : str) (w w' : W) (status : nat) :
  session_get url w = (Ok status, w') -> status <> 200 ->
  _fetch_document session_get response_read url w
  = (Err (Raise Exception
            (L "Failed to fetch document: " ++ str_of_nat status)), w')
  /\ process_document session_get response_read pdf_page_texts
       docx_paragraph_texts decode_utf8_ignore url w
     = (Err (Raise Exception
               (L "Failed to process document: Failed to fetch document: "
                  ++ str_of_nat status)), w').
Proof.
  intros Hs Hn. pose proof (fetch_refused url w w' status Hs Hn) as Hf.
  split; [exact Hf|].
  rewrite process_document_body. unfold process_body, bind.
  now rewrite Hf.
Qed.

(** X7: A file the PDF or DOCX reader rejects gives a failure whose message
    nests the reader's prefix inside the prefix of [process_document]. *)
Theorem unreadable_document (url : str) (w w' : W) (content : bytes)
    (e : exn) :
  _fetch_document session_get response_read url w = (Ok content, w') ->
  (occurs (L ".pdf") (lower url) -> pdf_page_texts content = Err e ->
     process_document session_get response_read pdf_page_texts
       docx_paragraph_texts decode_utf8_ignore url w
     = (Err (Raise Exception
               (L "Failed to process document: PDF processing failed: "
                  ++ exn_str e)), w')) /\
  (~ occurs (L ".pdf") (lower url) -> occurs (L ".doc") (lower url) ->
   docx_paragraph_texts content = Err e ->
     process_document session_get response_read pdf_page_texts
       docx_paragraph_texts decode_utf8_ignore url w
     = (Err (Raise Exception
               (L "Failed to process document: DOCX processing failed: "
                  ++ exn_str e)), w')).
Proof.
  intros Hf.
  rewrite process_document_body, (process_body_fetched url w w' content Hf).
  cbn [fst snd]. split.
  - intros Hp He. rewrite (proj2 (contains_spec _ _) Hp).
    unfold _process_pdf. now rewrite He.
  - intros Hp Hd He.
    rewrite (contains_false _ _ Hp), (proj2 (contains_spec _ _) Hd).
    unfold _process_docx. now rewrite He.
Qed.

(** What every reader gives its document. *)
Lemma process_body_consistent (url : str) (w w' : W)
      (d : ProcessedDocument) :
  process_body session_get response_read pdf_page_texts
    docx_paragraph_texts decode_utf8_ignore url w = (Ok d, w') ->
  doc_clauses d = _extract_clauses (doc_content d)
  /\ meta_lookup (doc_metadata d) (L "extracted_text_length")
     = Some (List.length (doc_content d))
  /\ (doc_type d = L "pdf" \/ doc_type d = L "docx" \/ doc_type d = L "text").
Proof.
  intros H.
  destruct (_fetch_document session_get response_read url w)
    as [[content|e] w0] eqn:Hf.
  - rewrite (process_body_fetched url w w0 content Hf) in H.
    injection H as H _.
    repeat match type of H with
           | context [if ?b then _ else _] => destruct b
           end;
      unfold _process_pdf, _process_docx, _process_text in H.
    + destruct (pdf_page_texts content); [|discriminate].
      injection H as <-. auto.
    + destruct (docx_paragraph_texts content); [|discriminate].
      injection H as <-. auto.
    + injection H as <-. auto 6.
  - unfold process_body, bind in H. rewrite Hf in H. discriminate.
Qed.

(** X8: Whatever the reader, a document that was processed carries the clauses
    of its own content and the length of that content. *)
Theorem processed_document_consistent (url : str) (w w' : W)
    (d : ProcessedDocument) :
  process_document session_get response_read pdf_page_texts
    docx_paragraph_texts decode_utf8_ignore url w = (Ok d, w') ->
  doc_clauses d = _extract_clauses (doc_content d)
  /\ meta_lookup (doc_metadata d) (L "extracted_text_length")
     = Some (List.length (doc_content d))
  /\ (doc_type d = L "pdf" \/ doc_type d = L "docx" \/ doc_type d = L "text").
Proof.
  rewrite process_document_body. intros H.
  destruct (process_body session_get response_read pdf_page_texts
              docx_paragraph_texts decode_utf8_ignore url w)
    as [[d0|e] w0] eqn:Hb; [|discriminate].
  cbn [fst snd reraise] in H. injection H as <- <-.
  exact (process_body_consistent url w w0 d0 Hb).
Qed.

Lemma sep_len_blocked (part x : str) :
  one_line part -> not_blank part -> sep_len (part ++ x) = None.
Proof.
  unfold one_line, not_blank, sep_len.
  induction part as [|c part IH]; intros Hl Hb; [discriminate|].
  simpl in *. destruct (is_space c) eqn:Hc; [|reflexivity].
  rewrite SegmentFacts.last_newline_shift.
  rewrite IH; [|intros Hin; apply Hl; now right | exact Hb].
  destruct (Ascii.eqb c newline) eqn:E; [|reflexivity].
  apply Ascii.eqb_eq in E. exfalso. apply Hl. now left.
Qed.

Lemma no_boundary_line (part t rest : str) :
  one_line part -> sep_len (t ++ rest) = None -> no_boundary_in t rest ->
  no_boundary_in (part ++ newline :: t) rest.
Proof.
  unfold one_line. intros Hl Hs Ht. induction part as [|c part IH]; simpl.
  - apply SegmentFacts.no_boundary_cons; [intros _; exact Hs | exact Ht].
  - apply SegmentFacts.no_boundary_cons.
    + intros E. apply Ascii.eqb_eq in E. exfalso. apply Hl. now left.
    + apply IH. intros Hin. apply Hl. now right.
Qed.

Lemma append_lines_no_boundary (parts : list str) :
  Forall one_line parts -> Forall not_blank (tl parts) ->
  no_boundary_in (append_lines parts) [].
Proof.
  induction parts as [|p ps IH]; intros Hl Hb; simpl.
  - apply SegmentFacts.no_boundary_nil.
  - inversion Hl as [|? ? Hp Hps]; subst. simpl in Hb.
    apply no_boundary_line; trivial.
    + rewrite app_nil_r. destruct ps as [|q ps]; [reflexivity|].
      simpl. inversion Hps; inversion Hb; subst.
      now apply sep_len_blocked.
    + apply IH; trivial. destruct ps; [constructor|].
      simpl. now inversion Hb.
Qed.

(** X9: The paragraphs of a DOCX file, like the pages of a PDF file, are put end
    to end with one newline after each: when no paragraph holds a newline
    and none after the first is blank, the whole text is one section, and
    the document has at most one clause. *)
Theorem paragraphs_make_one_section (content : bytes)
    (paragraphs : list str) :
  docx_paragraph_texts content = Ok paragraphs ->
  Forall one_line paragraphs -> Forall not_blank (tl paragraphs) ->
  exists d,
    _process_docx docx_paragraph_texts content = Ok d
    /\ doc_content d = append_lines paragraphs
    /\ re_split_blank_lines (doc_content d) = [doc_content d]
    /\ List.length (doc_clauses d) <= 1.
Proof.
  intros Hr Hl Hb. unfold _process_docx. rewrite Hr. cbn [rbind reraise].
  eexists. split; [reflexivity|]. cbn [doc_content doc_clauses].
  pose proof (SegmentFacts.split_no_boundary _
                (append_lines_no_boundary paragraphs Hl Hb)) as Hs.
  split; [reflexivity|]. split; [exact Hs|].
  unfold _extract_clauses. rewrite Hs. simpl.
  destruct (50 <? _); simpl; lia.
Qed.

End WithReaders.

Lemma reader_chosen_by_url_witness :
  occurs (L ".doc") (lower docs_host_url)
  /\ fst (process_document (status_is 200) (body_is []) unreadable
            (parts_are policy_paragraphs) latin1 docs_host_url tt)
     = _process_docx (parts_are policy_paragraphs) [].
Proof.
  assert (Hp : ~ occurs (L ".pdf") (lower docs_host_url)).
  { intros H. apply contains_spec in H. vm_compute in H. discriminate. }
  assert (Hd : occurs (L ".doc") (lower docs_host_url)).
  { apply contains_spec. vm_compute. reflexivity. }
  split; [exact Hd|].
  rewrite (proj1 (proj2 (reader_chosen_by_url unit (status_is 200)
             (body_is []) unreadable (parts_are policy_paragraphs) latin1
             docs_host_url tt tt [] eq_refl)) Hp Hd).
  reflexivity.
Defined.

Lemma fetch_status_not_200_witness :
  fst (process_document (status_is 404) (body_is []) unreadable unreadable
         latin1 pdf_url tt)
  = Err (Raise Exception
           (L "Failed to process document: Failed to fetch document: 404")).
Proof.
  rewrite (proj2 (fetch_status_not_200 unit (status_is 404) (body_is [])
             unreadable unreadable latin1 pdf_url tt tt 404 eq_refl
             ltac:(discriminate))).
  reflexivity.
Defined.

Lemma unreadable_document_witness :
  fst (process_document (status_is 200) (body_is []) unreadable unreadable
         latin1 pdf_url tt)
  = Err (Raise Exception
           (L "Failed to process document: PDF processing failed: EOF marker not found")).
Proof.
  assert (Hp : occurs (L ".pdf") (lower pdf_url)).
  { apply contains_spec. vm_compute. reflexivity. }
  rewrite (proj1 (unreadable_document unit (status_is 200) (body_is [])
             unreadable unreadable latin1 pdf_url tt tt []
             (Raise Exception (L "EOF marker not found")) eq_refl)
             Hp eq_refl).
  reflexivity.
Defined.

Lemma paragraphs_make_one_section_witness :
  exists d,
    _process_docx (parts_are policy_paragraphs) [] = Ok d
    /\ List.length (doc_clauses d) <= 1.
Proof.
  destruct (paragraphs_make_one_section (parts_are policy_paragraphs) []
              policy_paragraphs eq_refl) as (d & Hd & _ & _ & Hn).
  - repeat constructor; intros H; vm_compute in H; intuition discriminate.
  - repeat constructor.
  - exists d. now split.
Defined.

Lemma processed_document_consistent_witness :
  exists d,
    process_document (status_is 200) (body_is []) unreadable
      (parts_are policy_paragraphs) latin1 docs_host_url tt = (Ok d, tt)
    /\ doc_clauses d = _extract_clauses (doc_content d)
    /\ meta_lookup (doc_metadata d) (L "extracted_text_length") = Some 119.
Proof.
  eexists. split; [vm_compute; reflexivity|].
  destruct (processed_document_consistent unit (status_is 200) (body_is [])
              unreadable (parts_are policy_paragraphs) latin1 docs_host_url
              tt tt _ ltac:(vm_compute; reflexivity)) as (Hc & Hm & _).
  split; [exact Hc | exact Hm].
Defined.

End PipelineFacts.

(* ================================================================== *)
(** * Embeddings, and the search as the module is written *)
(* ================================================================== *)

Module EmbeddingFacts.
Import DocumentProcessor SemanticSearch DecisionEngine Main BatchEmbeddings.

Section WithEmbeddings.
Variable W : Type.
Variable embeddings_create : str -> M W vec.
Variable embeddings_create_batch : list str -> M W (list vec).



(** ** [_batch_embeddings] *)

Lemma batch_round (batch : list str) (w : W) :
  exists r w',
    try_except (embeddings_create_batch batch)
      (fun _ => ret (map (fun _ => zero_vector) batch)) w = (Ok r, w')
    /\ ((forall r0 w0, embeddings_create_batch batch w = (Ok r0, w0) ->
           List.length r0 = List.length batch) ->
        List.length r = List.length batch)
    /\ ((exists e w0, embeddings_create_batch batch w = (Err e, w0)) ->
        r = repeat zero_vector (List.length batch)).
Proof.
  unfold try_except, ret.
  destruct (embeddings_create_batch batch w) as [[r0|e] w0].
  - exists r0, w0. split; [reflexivity|]. split.
    + intros H. now apply (H r0 w0).
    + intros (e & w1 & H). discriminate.
  - exists (map (fun _ => zero_vector) batch), w0.
    split; [reflexivity|]. split.
    + intros _. apply length_map.
    + intros _. clear. induction batch; simpl; [reflexivity|].
      now f_equal.
Qed.

Lemma batch_loop_spec (fuel b : nat) :
  forall texts w,
    exists r w',
      batch_loop embeddings_create_batch fuel b texts w = (Ok r, w')
      /\ (0 < b -> List.length texts <= fuel ->
          ((forall batch w1 r0 w0,
              embeddings_create_batch batch w1 = (Ok r0, w0) ->
              List.length r0 = List.length batch) ->
           List.length r = List.length texts)
          /\ ((forall batch w1, exists e w0,
                 embeddings_create_batch batch w1 = (Err e, w0)) ->
              r = repeat zero_vector (List.length texts))).
Proof.
  induction fuel as [|fuel IH]; intros texts w.
  - exists [], w. split; [reflexivity|]. intros _ Hl.
    destruct texts; [|simpl in Hl; lia]. now split.
  - destruct texts as [|t ts].
    + exists [], w. split; [reflexivity|]. now split.
    + cbn [batch_loop]. unfold bind at 1.
      destruct (batch_round (firstn b (t :: ts)) w)
        as (r1 & w1 & H1 & Hlen1 & Hzero1).
      rewrite H1. unfold bind at 1.
      destruct (IH (skipn b (t :: ts)) w1) as (r2 & w2 & H2 & Hrest).
      rewrite H2. exists (r1 ++ r2), w2. split; [reflexivity|].
      intros Hb Hl.
      assert (Hskip : List.length (skipn b (t :: ts)) <= fuel).
      { rewrite length_skipn. cbn [List.length] in Hl |- *. lia. }
      destruct (Hrest Hb Hskip) as [Hlen2 Hzero2].
      assert (Hsum : List.length (firstn b (t :: ts))
                     + List.length (skipn b (t :: ts))
                     = List.length (t :: ts)).
      { rewrite <- length_app. now rewrite firstn_skipn. }
      split.
      * intros Hc. rewrite length_app, (Hlen2 Hc), <- Hsum. f_equal.
        apply Hlen1. intros r0 w0. apply Hc.
      * intros Hf. rewrite (Hzero1 (Hf _ _)), (Hzero2 Hf), <- repeat_app.
        now rewrite Hsum.
Qed.

(** X11: With a positive batch size [_batch_embeddings] never raises; when the
    endpoint answers each batch with one vector per text, the result has
    one vector per text; when the endpoint fails on every batch, the result
    is one zero vector of dimension 1536 per text.  A batch size of zero
    raises [ValueError], even without texts, and a negative one returns the
    empty list without calling the endpoint. *)
Theorem batch_embeddings_degrade (texts : list str) (batch_size : Z) (w : W) :
  ((0 < batch_size)%Z ->
   exists r w',
     _batch_embeddings embeddings_create_batch texts batch_size w = (Ok r, w')
     /\ ((forall batch w1 r0 w0,
            embeddings_create_batch batch w1 = (Ok r0, w0) ->
            List.length r0 = List.length batch) ->
         List.length r = List.length texts)
     /\ ((forall batch w1, exists e w0,
            embeddings_create_batch batch w1 = (Err e, w0)) ->
         r = repeat zero_vector (List.length texts))) /\
  (batch_size = 0%Z ->
   exists e, _batch_embeddings embeddings_create_batch texts batch_size w
             = (Err e, w) /\ exn_cls e = ValueError) /\
  ((batch_size < 0)%Z ->
   _batch_embeddings embeddings_create_batch texts batch_size w = (Ok [], w)).
Proof.
  unfold _batch_embeddings. split; [|split].
  - intros Hb.
    destruct (Z.eqb_spec batch_size 0); [lia|].
    destruct (Z.ltb_spec batch_size 0); [lia|].
    destruct (batch_loop_spec (List.length texts) (Z.to_nat batch_size)
                texts w) as (r & w' & Hr & Hspec).
    exists r, w'. split; [exact Hr|]. apply Hspec; lia.
  - intros ->. eexists. split; reflexivity.
  - intros Hb.
    destruct (Z.eqb_spec batch_size 0); [lia|].
    destruct (Z.ltb_spec batch_size 0); [reflexivity | lia].
Qed.

End WithEmbeddings.

Lemma batch_embeddings_degrade_witness :
  fst (_batch_embeddings (flaky_batches (L "gamma")) three_texts 2 tt)
  = Ok [[1%Q]; [1%Q]; zero_vector]
  /\ exists r,
       fst (_batch_embeddings (flaky_batches (L "gamma")) three_texts 2 tt)
       = Ok r /\ List.length r = 3.
Proof.
  split; [vm_compute; reflexivity|].
  destruct (proj1 (batch_embeddings_degrade unit (flaky_batches (L "gamma"))
                     three_texts 2 tt) ltac:(lia))
    as (r & [] & Hr & Hlen & _).
  exists r. rewrite Hr. split; [reflexivity|].
  apply Hlen. intros batch w1 r0 w0. unfold flaky_batches.
  destruct batch as [|first rest].
  - intros H. injection H as <- _. reflexivity.
  - destruct (str_eqb first (L "gamma")); [discriminate|].
    intros H. injection H as <- _. simpl. now rewrite length_map.
Defined.

End EmbeddingFacts.

(* ================================================================== *)
(** * The request, end to end *)
(* ================================================================== *)

Module RequestFacts.
Import DocumentProcessor SemanticSearch DecisionEngine Main DocumentPipeline.

Section WithEndpoints.
Variable W : Type.
Variable embeddings_create : str -> M W vec.
Variable fetch_text : str -> M W str.

Lemma search_as_written (question : str)
    (clauses : list Clause) (w : W) :
  exists w', search_clauses embeddings_create question clauses w = (Ok [], w').
Proof.
  unfold search_clauses, search_clauses_with, try_except, module_faiss.
  destruct clauses as [|c cl]; [now exists w|].
  unfold bind.
  destruct (_get_embedding embeddings_create question w) as [[v|e] w1];
    [|now exists w1].
  destruct (_get_clause_embeddings embeddings_create (c :: cl) w1)
    as [[embs|e] w2]; [|now exists w2].
  exists w2. unfold ret. now rewrite SearchFacts.find_similar_unbound.
Qed.

(** X12: As the module is written, [search_clauses] returns the empty list for
    every question and every document: either an embedding call fails, or
    [_find_similar_clauses] returns nothing.  Without clauses it does so
    without calling the embedding endpoint. *)
Theorem search_clauses_finds_nothing (question : str)
    (clauses : list Clause) (w : W) :
  exists w',
    search_clauses embeddings_create question clauses w = (Ok [], w')
    /\ (clauses = [] -> w' = w).
Proof.
  destruct clauses as [|c cl].
  - exists w. now split.
  - destruct (search_as_written question (c :: cl) w) as (w' & H).
    exists w'. split; [exact H | discriminate].
Qed.

Lemma answer_questions_as_written (clauses : list Clause)
      (questions : list str) :
  forall w, exists w',
    forall json_loads (chat_completions_create : str -> M W str),
      answer_questions json_loads embeddings_create chat_completions_create
        module_faiss clauses questions w
      = (Ok (map nothing_found questions), w').
Proof.
  induction questions as [|question rest IH]; intros w.
  - exists w. reflexivity.
  - destruct (search_as_written question clauses w) as (w1 & Hs).
    destruct (IH w1) as (w2 & Hr). exists w2. intros json_loads cc.
    exact (MainFacts.answer_questions_cons W json_loads embeddings_create cc
             module_faiss clauses question rest w w1 w1 w2 []
             no_information (map nothing_found rest) Hs eq_refl
             (Hr json_loads cc)).
Qed.

(** X13: As the module is written, a request whose document was read answers
    every question with the entry for "nothing found", confidence 0.0, and
    the answers do not depend on the completion endpoint or on the JSON
    reader: the completion endpoint is never called. *)
Theorem run_query_finds_nothing (documents : str) (questions : list str)
    (w w0 : W) (text : str) :
  fetch_text documents w = (Ok text, w0) ->
  exists w',
    forall json_loads (chat_completions_create : str -> M W str),
      run_query json_loads embeddings_create chat_completions_create
        fetch_text documents questions w
      = (Ok (map nothing_found questions), w').
Proof.
  intros Hf.
  destruct (answer_questions_as_written (_extract_clauses text) questions w0)
    as (w' & Ha).
  exists w'. intros json_loads cc.
  unfold run_query, run_query_with, try_except, bind,
    Main.process_document, try_except, bind, ret.
  now rewrite Hf, (Ha json_loads cc).
Qed.

(** X15: A document that cannot be read fails the whole request: no question is
    answered, no embedding or completion is asked for, and the error nests
    the message of the reader inside two prefixes. *)
Theorem run_query_document_failure (fb : option Faiss)
    (json_loads : str -> result pyval)
    (chat_completions_create : str -> M W str)
    (documents : str) (questions : list str) (w w' : W) (e : exn) :
  fetch_text documents w = (Err e, w') ->
  run_query_with json_loads embeddings_create chat_completions_create
    fetch_text fb documents questions w
  = (Err (Raise HTTPException
            (L "Internal server error: Failed to process document: "
               ++ exn_str e)), w').
Proof.
  intros Hf.
  unfold run_query_with, try_except, bind, Main.process_document,
    try_except, bind, raise.
  now rewrite Hf.
Qed.

Lemma decision_at_most_three (json_loads : str -> result pyval)
      (chat_completions_create : str -> M W str) (question : str)
      (relevant : list RankedClause) (w : W) :
  exists d w',
    evaluate_decision json_loads chat_completions_create question relevant w
    = (Ok d, w')
    /\ List.length (relevant_clauses d) <= 3.
Proof.
  destruct (EngineFacts.evaluate_cases W json_loads chat_completions_create
              question relevant w)
    as [[-> H]|[[Hne (e & w' & _ & H)]|[Hne (r & w' & _ & H)]]];
    rewrite H; do 2 eexists; (split; [reflexivity|]).
  - simpl. lia.
  - destruct relevant; [congruence|]. cbn [error_decision relevant_clauses].
    rewrite length_firstn. apply Nat.le_min_l.
  - rewrite (EngineFacts.decision_from_clauses _ _ Hne), length_firstn.
    apply Nat.le_min_l.
Qed.

Lemma answers_shape (fb : option Faiss) (json_loads : str -> result pyval)
      (chat_completions_create : str -> M W str) (clauses : list Clause)
      (questions : list str) :
  forall w, exists answers w',
    answer_questions json_loads embeddings_create chat_completions_create
      fb clauses questions w = (Ok answers, w')
    /\ map entry_question answers = questions
    /\ Forall (fun a => List.length (entry_relevant_clauses a) <= 3) answers.
Proof.
  induction questions as [|question rest IH]; intros w.
  - exists [], w. repeat split. constructor.
  - destruct (MainFacts.search_total W embeddings_create fb question
                clauses w) as (relevant & w1 & Hs).
    destruct (decision_at_most_three json_loads chat_completions_create
                question relevant w1) as (d & w2 & He & H3).
    destruct (IH w2) as (answers & w3 & Ha & Hq & Hall).
    eexists. exists w3.
    rewrite (MainFacts.answer_questions_cons W json_loads embeddings_create
               chat_completions_create fb clauses question rest w w1 w2 w3
               relevant d answers Hs He Ha).
    split; [reflexivity|]. split; [simpl; now rewrite Hq|].
    constructor; [exact H3 | exact Hall].
Qed.

(** X14: Once the document is read, the request succeeds whatever the embedding
    and completion endpoints do: it returns one entry per question, in the
    order asked, each with at most three supporting clauses. *)
Theorem run_query_one_entry_per_question (fb : option Faiss)
    (json_loads : str -> result pyval)
    (chat_completions_create : str -> M W str)
    (documents : str) (questions : list str) (w w0 : W) (text : str) :
  fetch_text documents w = (Ok text, w0) ->
  exists answers w',
    run_query_with json_loads embeddings_create chat_completions_create
      fetch_text fb documents questions w = (Ok answers, w')
    /\ map entry_question answers = questions
    /\ Forall (fun a => List.length (entry_relevant_clauses a) <= 3) answers.
Proof.
  intros Hf.
  destruct (answers_shape fb json_loads chat_completions_create
              (_extract_clauses text) questions w0)
    as (answers & w' & Ha & Hq & Hall).
  exists answers, w'. split; [|now split].
  unfold run_query_with, try_except, bind, Main.process_document,
    try_except, bind, ret.
  now rewrite Hf, Ha.
Qed.

End WithEndpoints.

Section WithReaders.
Variable W : Type.
Variable session_get : str -> M W nat.
Variable response_read : str -> M W bytes.
Variable pdf_page_texts : bytes -> result (list str).
Variable docx_paragraph_texts : bytes -> result (list str).
Variable decode_utf8_ignore : bytes -> str.

(** [run_query] reads the document through [process_document] of
    [document_processor.py] and keeps its clauses: the question loop above,
    given the text as [process_body] reads it, sees the clauses and the
    failures of [DocumentPipeline.process_document]. *)
Lemma process_document_clauses (url : str) (w : W) :
  Main.process_document
    (document_text session_get response_read pdf_page_texts
       docx_paragraph_texts decode_utf8_ignore) url w
  = match DocumentPipeline.process_document session_get response_read
            pdf_page_texts docx_paragraph_texts decode_utf8_ignore url w with
    | (Ok d, w') => (Ok (doc_clauses d), w')
    | (Err e, w') => (Err e, w')
    end.
Proof.
  rewrite PipelineFacts.process_document_body.
  unfold Main.process_document, try_except, bind, document_text, bind, ret,
    raise.
  destruct (process_body session_get response_read pdf_page_texts
              docx_paragraph_texts decode_utf8_ignore url w)
    as [[d|e] w'] eqn:Hb; cbn [fst snd reraise]; [|reflexivity].
  destruct (PipelineFacts.process_body_consistent W session_get
              response_read pdf_page_texts docx_paragraph_texts
              decode_utf8_ignore url w w' d Hb) as (Hc & _).
  now rewrite Hc.
Qed.

(** X16: A document whose server answers another status than 200 fails the
    request with the status inside three prefixes; the body is not read and
    no question is processed. *)
Theorem run_query_status_not_200 (fb : option Faiss)
    (json_loads : str -> result pyval)
    (embeddings_create : str -> M W vec)
    (chat_completions_create : str -> M W str)
    (documents : str) (questions : list str) (w w' : W) (status : nat) :
  session_get documents w = (Ok status, w') -> status <> 200 ->
  run_query_with json_loads embeddings_create chat_completions_create
    (document_text session_get response_read pdf_page_texts
       docx_paragraph_texts decode_utf8_ignore)
    fb documents questions w
  = (Err (Raise HTTPException
            (L "Internal server error: Failed to process document: Failed to fetch document: "
               ++ str_of_nat status)), w').
Proof.
  intros Hs Hn.
  unfold run_query_with, try_except at 1, bind at 1.
  rewrite process_document_clauses, PipelineFacts.process_document_body.
  unfold process_body, bind.
  rewrite (PipelineFacts.fetch_refused W session_get response_read
             documents w w' status Hs Hn).
  reflexivity.
Qed.

End WithReaders.

Lemma search_clauses_finds_nothing_witness :
  fst (search_clauses (fun _ w => (Ok question_vector, w)) knee_question
         four_clauses tt) = Ok [].
Proof.
  destruct (search_clauses_finds_nothing unit
              (fun _ w => (Ok question_vector, w)) knee_question
              four_clauses tt) as ([] & H & _).
  now rewrite H.
Defined.

Lemma run_query_finds_nothing_witness :
  fst (run_query JsonRef.json_loads (flaky_embeddings maternity_question)
         (answering prose_then_json) (fun _ w => (Ok two_line_text, w))
         pdf_url [knee_question; maternity_question] tt)
  = Ok [nothing_found knee_question; nothing_found maternity_question].
Proof.
  destruct (run_query_finds_nothing unit
              (flaky_embeddings maternity_question)
              (fun _ w => (Ok two_line_text, w)) pdf_url
              [knee_question; maternity_question] tt tt two_line_text
              eq_refl) as ([] & H).
  now rewrite H.
Defined.

Lemma run_query_one_entry_per_question_witness :
  exists answers,
    fst (run_query_with JsonRef.json_loads
           (flaky_embeddings maternity_question) (failing (L "overloaded"))
           (fun _ w => (Ok two_line_text, w)) (Some reference_faiss)
           pdf_url [knee_question; maternity_question] tt)
    = Ok answers
    /\ map entry_question answers = [knee_question; maternity_question].
Proof.
  destruct (run_query_one_entry_per_question unit
              (flaky_embeddings maternity_question)
              (fun _ w => (Ok two_line_text, w)) (Some reference_faiss)
              JsonRef.json_loads (failing (L "overloaded")) pdf_url
              [knee_question; maternity_question] tt tt two_line_text
              eq_refl) as (answers & [] & H & Hq & _).
  exists answers. rewrite H. now split.
Defined.

Lemma run_query_document_failure_witness :
  fst (run_query_with JsonRef.json_loads
         (flaky_embeddings maternity_question) (answering prose_then_json)
         (fun _ w => (Err (Raise Exception (L "connection refused")), w))
         (Some reference_faiss) pdf_url [knee_question] tt)
  = Err (Raise HTTPException
           (L "Internal server error: Failed to process document: connection refused")).
Proof.
  rewrite (run_query_document_failure unit
             (flaky_embeddings maternity_question)
             (fun _ w => (Err (Raise Exception (L "connection refused")), w))
             (Some reference_faiss) JsonRef.json_loads
             (answering prose_then_json) pdf_url [knee_question] tt tt
             (Raise Exception (L "connection refused")) eq_refl).
  reflexivity.
Defined.

Lemma run_query_status_not_200_witness :
  fst (run_query_with JsonRef.json_loads
         (flaky_embeddings maternity_question) (answering prose_then_json)
         (document_text (status_is 404) (body_is []) unreadable unreadable
            latin1)
         (Some reference_faiss) pdf_url [knee_question] tt)
  = Err (Raise HTTPException
           (L "Internal server error: Failed to process document: Failed to fetch document: 404")).
Proof.
  rewrite (run_query_status_not_200 unit (status_is 404) (body_is [])
             unreadable unreadable latin1 (Some reference_faiss)
             JsonRef.json_loads (flaky_embeddings maternity_question)
             (answering prose_then_json) pdf_url [knee_question] tt tt 404
             eq_refl ltac:(discriminate)).
  reflexivity.
Defined.

End RequestFacts.

(* ================================================================== *)
(** * More on decision synthesis *)
(* ================================================================== *)

Module EngineMore.
Import DocumentProcessor SemanticSearch DecisionEngine.

Lemma context_parts_shown (a b : list RankedClause) :
  map shown a = map shown b ->
  forall i, context_parts i a = context_parts i b.
Proof.
  revert b; induction a as [|x a IH]; intros [|y b] H i;
    try discriminate; [reflexivity|].
  simpl in H. injection H as Ht Hc H. simpl.
  rewrite Ht, Hc. f_equal. now apply IH.
Qed.

(** X17: The context shown to the model is made of the category and the content
    of the first five clauses and of nothing else: the scores, the ranks and
    every clause after the fifth leave it unchanged. *)
Theorem context_reads_first_five (a b : list RankedClause) :
  map shown (firstn 5 a) = map shown (firstn 5 b) ->
  _build_context a = _build_context b.
Proof.
  intros H. unfold _build_context. f_equal.
  now apply context_parts_shown.
Qed.

Lemma context_reads_first_five_witness :
  _build_context six_ranked = _build_context five_ranked.
Proof.
  apply context_reads_first_five. reflexivity.
Defined.

Lemma occurs_join (x sep : str) (parts : list str) (p : str) :
  In p parts -> occurs x p -> occurs x (join sep parts).
Proof.
  intros Hin (a & b & ->). induction parts as [|q parts IH]; [contradiction|].
  destruct Hin as [->|Hin].
  - destruct parts as [|q' parts].
    + now exists a, b.
    + exists a, (b ++ sep ++ join sep (q' :: parts)).
      cbn [join]. now rewrite <- !app_assoc.
  - destruct (IH Hin) as (a' & b' & E).
    destruct parts as [|q' parts]; [contradiction|].
    exists (q ++ sep ++ a'), b'.
    cbn [join] in *. rewrite E. now rewrite <- !app_assoc.
Qed.

Lemma context_parts_content (clauses : list RankedClause) (c : RankedClause) :
  In c clauses ->
  forall i, exists p,
    In p (context_parts i clauses)
    /\ occurs (clause_content (rc_clause c)) p.
Proof.
  induction clauses as [|x clauses IH]; intros Hin i; [contradiction|].
  destruct Hin as [->|Hin].
  - eexists. split; [now left|].
    eexists. exists []. rewrite app_nil_r. rewrite !app_assoc. reflexivity.
  - destruct (IH Hin (S i)) as (p & Hp & Ho).
    exists p. split; [now right | exact Ho].
Qed.

(** X18: The prompt carries the question and the content of each of the first
    five clauses word for word. *)
Theorem prompt_carries_evidence (question : str)
    (clauses : list RankedClause) :
  occurs question (_build_prompt question (_build_context clauses))
  /\ forall c, In c (firstn 5 clauses) ->
       occurs (clause_content (rc_clause c))
              (_build_prompt question (_build_context clauses)).
Proof.
  split.
  - unfold _build_prompt.
    apply occurs_join with (p := L "Question: " ++ question).
    + do 5 right. now left.
    + exists (L "Question: "), []. now rewrite app_nil_r.
  - intros c Hc. unfold _build_prompt.
    apply occurs_join with (p := _build_context clauses).
    + do 3 right. now left.
    + destruct (context_parts_content (firstn 5 clauses) c Hc 0)
        as (p & Hp & Ho).
      unfold _build_context. now apply occurs_join with (p := p).
Qed.

Lemma prompt_carries_evidence_witness :
  In (mkRanked c2 (1 # 2) 3) (firstn 5 four_ranked)
  /\ occurs (L "The waiting period for cataract surgery is two full years.")
       (_build_prompt knee_question (_build_context four_ranked)).
Proof.
  assert (H : In (mkRanked c2 (1 # 2) 3) (firstn 5 four_ranked)).
  { simpl. auto. }
  split; [exact H|].
  exact (proj2 (prompt_carries_evidence knee_question four_ranked) _ H).
Defined.

Section WithProvider.
Variable W : Type.
Variable json_loads : str -> result pyval.
Variable chat_completions_create : str -> M W str.

(** X19: When the JSON text of the response is not an object (a list, a number,
    a string, [true], [false] or [null]), the three fields cannot be read:
    the decision is the error decision, whose rationale names the type of
    the value. *)
Theorem non_object_json_is_an_error (question : str)
    (clauses : list RankedClause) (w w' : W) (response s : str)
    (v : pyval) :
  clauses <> [] ->
  chat_completions_create
    (_build_prompt question (_build_context clauses)) w = (Ok response, w') ->
  json_candidate response = Some s ->
  json_loads s = Ok v ->
  (forall items, v <> PDict items) ->
  evaluate_decision json_loads chat_completions_create question clauses w
  = (Ok {| answer := PStr (L "Error processing the question.");
           rationale := PStr (L "Technical error: '" ++ type_name v
                                ++ L "' object has no attribute 'get'");
           relevant_clauses := firstn 3 clauses;
           confidence := PFloat 0 |}, w').
Proof.
  intros Hne Hcc Hs Hl Hv.
  rewrite (EngineFacts.evaluate_response W json_loads chat_completions_create
             question clauses w w' response Hne Hcc).
  unfold _parse_response. rewrite Hs, Hl.
  destruct clauses as [|c cl]; [congruence|].
  destruct v; try reflexivity.
  exfalso. now apply (Hv d).
Qed.

End WithProvider.

Lemma non_object_json_is_an_error_witness :
  fst (evaluate_decision JsonRef.json_loads (answering fenced_array)
         knee_question four_ranked tt)
  = Ok {| answer := PStr (L "Error processing the question.");
          rationale := PStr (L "Technical error: 'list' object has no attribute 'get'");
          relevant_clauses := firstn 3 four_ranked;
          confidence := PFloat 0 |}.
Proof.
  rewrite (non_object_json_is_an_error unit JsonRef.json_loads
             (answering fenced_array) knee_question four_ranked tt tt
             fenced_array (L "[1, 2]") (PList [PInt 1; PInt 2])
             ltac:(discriminate) eq_refl ltac:(vm_compute; reflexivity)
             ltac:(vm_compute; reflexivity) ltac:(discriminate)).
  reflexivity.
Defined.



End EngineMore.

(* ================================================================== *)
(** * The bearer token *)
(* ================================================================== *)

Module AuthFacts.
Import Auth.

Lemma replace_scan_skip (old new a t : str) (k : nat) :
  List.length a = k ->
  replace_scan k old new (a ++ t) = replace_scan 0 old new t.
Proof.
  revert k; induction a as [|c a IH]; intros k Hk; simpl in Hk; subst k.
  - reflexivity.
  - simpl. now apply IH.
Qed.

(** A pattern at the front is replaced, and the scan goes on after it. *)
Lemma replace_prefix (old new t : str) :
  old <> [] -> replace old new (old ++ t) = new ++ replace old new t.
Proof.
  intros Hne. unfold replace. destruct old as [|c o]; [congruence|].
  cbn [app replace_scan].
  change (startswith (c :: o) (c :: o ++ t))
    with (startswith (c :: o) ((c :: o) ++ t)).
  rewrite startswith_app. f_equal.
  apply replace_scan_skip. simpl. lia.
Qed.

(** A text in which the pattern does not occur is left as it is. *)
Lemma replace_absent (old new t : str) :
  ~ occurs old t -> replace old new t = t.
Proof.
  unfold replace. induction t as [|c t IH]; intros H; [reflexivity|].
  cbn [replace_scan].
  destruct (startswith old (c :: t)) eqn:E.
  - exfalso. apply H. destruct (startswith_inv _ _ E) as [r Hr].
    exists [], r. exact Hr.
  - f_equal. apply IH. intros (a & b & ->). apply H.
    now exists (c :: a), b.
Qed.

Lemma replace_bearers (n : nat) (t : str) :
  ~ occurs bearer t -> replace bearer [] (bearers n ++ t) = t.
Proof.
  intros H. induction n as [|n IH]; unfold bearers in *;
    cbn [repeat List.concat].
  - now apply replace_absent.
  - rewrite <- app_assoc, replace_prefix by discriminate. exact IH.
Qed.

(** X21: [verify_token] lets a request through exactly when the header starts
    with "Bearer " and is the expected token once every "Bearer " has been
    taken out of it; it answers the token, and every refusal is a 401. *)
Theorem verify_token_accepts (authorization : option str)
    (bearer_token_env : option str) :
  (forall token,
     verify_token authorization bearer_token_env = inr token <->
     exists header,
       authorization = Some header
       /\ startswith bearer header = true
       /\ replace bearer [] header = expected_token bearer_token_env
       /\ token = expected_token bearer_token_env) /\
  (forall err,
     verify_token authorization bearer_token_env = inl err ->
     status_code err = 401).
Proof.
  unfold verify_token, expected_token. split.
  - intros token. split.
    + destruct authorization as [[|c header]|]; try discriminate.
      destruct (startswith bearer (c :: header)) eqn:Hs; [|discriminate].
      cbn [negb].
      destruct (str_eqb _ _) eqn:He; [|discriminate].
      cbn [negb]. intros H. injection H as <-.
      unfold str_eqb in He. destruct (list_eq_dec _ _ _) as [E|]; [|discriminate].
      exists (c :: header). auto.
    + intros (header & -> & Hs & Hr & ->).
      destruct header as [|c header]; [discriminate|].
      rewrite Hs, Hr. cbn [negb]. unfold str_eqb.
      destruct (list_eq_dec _ _ _); [reflexivity | congruence].
  - intros err.
    destruct authorization as [[|c header]|];
      try (intros H; injection H as <-; reflexivity).
    destruct (startswith bearer (c :: header)); cbn [negb];
      [|intros H; injection H as <-; reflexivity].
    destruct (str_eqb _ _); cbn [negb]; [discriminate|].
    intros H. injection H as <-. reflexivity.
Qed.

Lemma verify_token_accepts_witness :
  verify_token (Some (L "Bearer default_Bearer token")) None
  = inr (L "default_token").
Proof.
  apply (proj1 (verify_token_accepts
                  (Some (L "Bearer default_Bearer token")) None)).
  exists (L "Bearer default_Bearer token").
  repeat split; reflexivity.
Defined.

(** X22: The expected token is accepted behind any positive number of "Bearer "
    prefixes, provided "Bearer " does not occur in the token itself. *)
Theorem repeated_bearer_accepted (bearer_token_env : option str) (n : nat) :
  ~ occurs bearer (expected_token bearer_token_env) ->
  verify_token (Some (bearers (S n) ++ expected_token bearer_token_env))
    bearer_token_env
  = inr (expected_token bearer_token_env).
Proof.
  intros H.
  assert (Hr : replace bearer []
                 (bearers (S n) ++ expected_token bearer_token_env)
               = expected_token bearer_token_env)
    by now apply replace_bearers.
  assert (Hs : startswith bearer
                 (bearers (S n) ++ expected_token bearer_token_env) = true).
  { unfold bearers. cbn [repeat List.concat]. rewrite <- app_assoc.
    apply startswith_app. }
  unfold verify_token.
  destruct (bearers (S n) ++ expected_token bearer_token_env) eqn:E;
    [discriminate|].
  rewrite Hs, Hr. cbn [negb]. fold (expected_token bearer_token_env).
  unfold str_eqb. destruct (list_eq_dec _ _ _); [reflexivity | congruence].
Qed.

Lemma repeated_bearer_accepted_witness :
  verify_token (Some (L "Bearer Bearer Bearer default_token")) None
  = inr (L "default_token").
Proof.
  apply (repeated_bearer_accepted None 2).
  intros H. apply contains_spec in H. vm_compute in H. discriminate.
Defined.

End AuthFacts.
